(** * Signaling server of the random video chat (src/app.py)

    A shallow embedding of the in-memory matchmaking and signaling state of
    the Flask application and of its HTTP handlers, followed by the
    properties of the specification that were checked against it.

    Modelling conventions.
    - The five module-level globals of app.py form one [State] record that
      every handler receives and returns (explicit state passing).
    - Python dictionaries are stdpp [gmap]s, also the two-entry dictionary
      of a room; a [Queue] is the list of its pending items, oldest first
      ([put] appends at the end, [get] removes the head).
    - Client and room identifiers are strings.  A request field read with
      [request.json.get] is an [option string]: [None] when the field is
      absent.  Python truthiness of such a value is [truthy].
    - [uuid.uuid4()] is an oracle: a handler that may draw an identifier
      takes as argument the string the call would return. *)

From stdpp Require Import gmap strings list fin_maps.

Open Scope string_scope.
Open Scope list_scope.
Set Warnings "-register-all".

(** ** Data model *)

(** JSON values: request payloads and the [data] of queued events. *)
Inductive json : Type :=
| JNull
| JBool (b : bool)
| JNum (n : Z)
| JStr (s : string)
| JArr (l : list json)
| JObj (l : list (string * json)).

(** One queued item, [{"event": event, "data": data}]. *)
Record Event : Type := mkEvent { event : string; data : json }.

(** What a handler returns: [jsonify(body), status] (status 200 when the
    source gives none), the SSE stream of [events], or the HTML page. *)
Inductive Response : Type :=
| jsonify (body : json) (status : nat)
| event_stream
| html_page.

(** The module-level state of app.py, lines 40-44. *)
Record State : Type := mkState {
  waiting_id : option string;
  rooms : gmap string (gmap string string);
  peer_of : gmap string string;
  room_of : gmap string string;
  message_queues : gmap string (list Event)
}.

Definition init : State := mkState None ∅ ∅ ∅ ∅.

Definition set_waiting_id (w : option string) (s : State) : State :=
  mkState w (rooms s) (peer_of s) (room_of s) (message_queues s).
Definition set_rooms (r : gmap string (gmap string string)) (s : State) : State :=
  mkState (waiting_id s) r (peer_of s) (room_of s) (message_queues s).
Definition set_peer_of (p : gmap string string) (s : State) : State :=
  mkState (waiting_id s) (rooms s) p (room_of s) (message_queues s).
Definition set_room_of (r : gmap string string) (s : State) : State :=
  mkState (waiting_id s) (rooms s) (peer_of s) r (message_queues s).
Definition set_message_queues (q : gmap string (list Event)) (s : State) : State :=
  mkState (waiting_id s) (rooms s) (peer_of s) (room_of s) q.

(** Python truthiness of a string: the empty string is falsy. *)
Definition truthy (x : string) : bool := bool_decide (x ≠ "").

(** ** Helpers of app.py *)

(** [_ensure_queue], lines 47-52 (the state after the call). *)
Definition _ensure_queue (cid : string) (s : State) : State :=
  match message_queues s !! cid with
  | None => set_message_queues (<[cid := []]> (message_queues s)) s
  | Some _ => s
  end.

(** [_enqueue], lines 55-57: nothing happens when [cid] has no queue. *)
Definition _enqueue (cid : string) (ev : string) (d : json) (s : State) : State :=
  match message_queues s !! cid with
  | Some q => set_message_queues (<[cid := q ++ [mkEvent ev d]]> (message_queues s)) s
  | None => s
  end.

(** The loop of lines 75-77: every entry whose value is [cid] is deleted. *)
Definition remove_member (cid : string) (members : gmap string string)
  : gmap string string :=
  filter (λ kv : string * string, kv.2 ≠ cid) members.

(** [_leave_current_room], lines 60-84. *)
Definition _leave_current_room (cid : string) (notify_peer : bool) (s : State)
  : State :=
  let rid := room_of s !! cid in
  let s := set_room_of (delete cid (room_of s)) s in
  match rid with
  | Some rid =>
      if truthy rid then
        let other := peer_of s !! cid in
        let s := set_peer_of (delete cid (peer_of s)) s in
        let s := match other with
                 | Some o => if truthy o
                             then set_peer_of (delete o (peer_of s)) s else s
                 | None => s
                 end in
        let members := remove_member cid (default ∅ (rooms s !! rid)) in
        let s := set_rooms (<[rid := members]> (rooms s)) s in
        let s := match other with
                 | Some o => if notify_peer && truthy o
                             then _enqueue o "peer-left" (JObj []) s else s
                 | None => s
                 end in
        if decide (members = ∅) then set_rooms (delete rid (rooms s)) s else s
      else
        if decide (waiting_id s = Some cid) then set_waiting_id None s else s
  | None =>
      if decide (waiting_id s = Some cid) then set_waiting_id None s else s
  end.

(** ** HTTP handlers *)

Definition missing_id : Response :=
  jsonify (JObj [("error", JStr "missing id")]) 400.
Definition missing_fields : Response :=
  jsonify (JObj [("error", JStr "missing fields")]) 400.
Definition peer_not_found : Response :=
  jsonify (JObj [("error", JStr "peer not found")]) 404.
Definition ok : Response := jsonify (JObj [("ok", JBool true)]) 200.
Definition waiting : Response := jsonify (JObj [("status", JStr "waiting")]) 200.
Definition matched (rid : string) : Response :=
  jsonify (JObj [("status", JStr "matched"); ("room", JStr rid)]) 200.

(** The HTTP status of a response; a stream or a page is sent with 200. *)
Definition status_code (r : Response) : nat :=
  match r with
  | jsonify _ st => st
  | event_stream | html_page => 200
  end.

(** [register], lines 89-94; [uuid4] is the identifier drawn. *)
Definition register (uuid4 : string) (s : State) : State * Response :=
  (_ensure_queue uuid4 s, jsonify (JObj [("id", JStr uuid4)]) 200).

Definition matched_data (rid role peer : string) : json :=
  JObj [("room", JStr rid); ("role", JStr role); ("peer", JStr peer)].

Definition searching : json :=
  JObj [("msg", JStr "Searching for a partner…")].

(** Lines 105-107 of [find_partner]: a client that is in a room leaves it
    first, without a notification to the peer. *)
Definition leave_if_in_room (cid : string) (s : State) : State :=
  if decide (is_Some (room_of s !! cid))
  then _leave_current_room cid false s else s.

(** Lines 111-121: the waiting client [other] and [cid] are paired in the
    room [rid]. *)
Definition pair_up (other cid rid : string) (s : State) : State :=
  let s := set_waiting_id None s in
  let s := set_rooms (<[rid := {["a" := other; "b" := cid]}]> (rooms s)) s in
  let s := set_peer_of (<[other := cid]> (peer_of s)) s in
  let s := set_peer_of (<[cid := other]> (peer_of s)) s in
  let s := set_room_of (<[other := rid]> (room_of s)) s in
  let s := set_room_of (<[cid := rid]> (room_of s)) s in
  let s := _enqueue other "matched" (matched_data rid "caller" cid) s in
  _enqueue cid "matched" (matched_data rid "callee" other) s.

(** Lines 125-126: [cid] becomes the waiting client. *)
Definition become_waiting (cid : string) (s : State) : State :=
  let s := set_waiting_id (Some cid) s in
  _enqueue cid "status" searching s.

(** The body of [find_partner] after the check of the id, lines 105-127;
    [uuid4] is the room identifier drawn at line 113. *)
Definition find_partner_body (cid : string) (uuid4 : string) (s : State)
  : State * Response :=
  let s := leave_if_in_room cid s in
  match waiting_id s with
  | Some other =>
      if truthy other && bool_decide (other ≠ cid)
      then (pair_up other cid uuid4 s, matched uuid4)
      else (become_waiting cid s, waiting)
  | None => (become_waiting cid s, waiting)
  end.

(** [find_partner], lines 97-127. *)
Definition find_partner (id : option string) (uuid4 : string) (s : State)
  : State * Response :=
  match id with
  | Some cid => if truthy cid then find_partner_body cid uuid4 s
                else (s, missing_id)
  | None => (s, missing_id)
  end.

Definition signal_data (cid typ : string) (payload : json) : json :=
  JObj [("from", JStr cid); ("type", JStr typ); ("payload", payload)].

(** [signal], lines 130-142. *)
Definition signal (id to typ : option string) (payload : json) (s : State)
  : State * Response :=
  match id, to, typ with
  | Some cid, Some to, Some typ =>
      if truthy cid && truthy to && truthy typ then
        match message_queues s !! to with
        | None => (s, peer_not_found)
        | Some _ =>
            (_enqueue to "signal" (signal_data cid typ payload) s, ok)
        end
      else (s, missing_fields)
  | _, _, _ => (s, missing_fields)
  end.

(** [next_partner], lines 145-151: the request handed to [find_partner] is
    the same one, so it reads the same id. *)
Definition next_partner (id : option string) (uuid4 : string) (s : State)
  : State * Response :=
  match id with
  | Some cid =>
      if truthy cid
      then find_partner id uuid4 (_leave_current_room cid true s)
      else (s, missing_id)
  | None => (s, missing_id)
  end.

Definition left_the_chat : json := JObj [("msg", JStr "Left the chat.")].

(** [leave], lines 154-161. *)
Definition leave (id : option string) (s : State) : State * Response :=
  match id with
  | Some cid =>
      if truthy cid then
        let s := _leave_current_room cid true s in
        let s := _enqueue cid "status" left_the_chat s in
        (s, ok)
      else (s, missing_id)
  | None => (s, missing_id)
  end.

(** [events], lines 164-187: the queue is created when absent and the
    response is the stream of the generator [gen]. *)
Definition events (id : option string) (s : State) : State * Response :=
  match id with
  | Some cid => if truthy cid then (_ensure_queue cid s, event_stream)
                else (s, missing_id)
  | None => (s, missing_id)
  end.

(** One round of the loop of [gen], line 177: [q.get] takes the oldest
    pending item of the queue of [cid]; on an empty queue the wait times out
    and only a keep-alive comment is sent. *)
Definition gen_next (cid : string) (s : State) : State * option Event :=
  match message_queues s !! cid with
  | Some (item :: q) =>
      (set_message_queues (<[cid := q]> (message_queues s)) s, Some item)
  | _ => (s, None)
  end.

Fixpoint items_json (l : list Event) : list json :=
  match l with
  | [] => []
  | e :: l => JObj [("event", JStr (event e)); ("data", data e)] :: items_json l
  end.

(** [_test_pull], lines 396-410; [enabled] is the value of
    [tests_enabled()]. *)
Definition _test_pull (enabled : bool) (id : option string) (s : State)
  : State * Response :=
  if enabled then
    match id with
    | Some cid =>
        if truthy cid then
          let s := _ensure_queue cid s in
          let items := default [] (message_queues s !! cid) in
          (set_message_queues (<[cid := []]> (message_queues s)) s,
           jsonify (JArr (items_json items)) 200)
        else (s, missing_id)
    | None => (s, missing_id)
    end
  else (s, jsonify (JObj [("error", JStr "disabled")]) 403).

(** [index], lines 383-385. *)
Definition index (s : State) : State * Response := (s, html_page).

(** ** The server as a transition system *)

Inductive Request : Type :=
| POST_register (uuid4 : string)
| POST_find (id : option string) (uuid4 : string)
| POST_signal (id to typ : option string) (payload : json)
| POST_next (id : option string) (uuid4 : string)
| POST_leave (id : option string)
| GET_events (id : option string)
| SSE_next (cid : string)
| POST_test_pull (enabled : bool) (id : option string)
| GET_index.

Definition handle (req : Request) (s : State) : State * Response :=
  match req with
  | POST_register u => register u s
  | POST_find id u => find_partner id u s
  | POST_signal id to typ payload => signal id to typ payload s
  | POST_next id u => next_partner id u s
  | POST_leave id => leave id s
  | GET_events id => events id s
  | SSE_next cid => ((gen_next cid s).1, event_stream)
  | POST_test_pull en id => _test_pull en id s
  | GET_index => index s
  end.

(** What is assumed of [uuid.uuid4()]: the string is not empty, and a room
    identifier is not the key of a room that exists. *)
Definition uuid_ok (req : Request) (s : State) : Prop :=
  match req with
  | POST_register u => u ≠ ""
  | POST_find _ u | POST_next _ u => u ≠ "" ∧ rooms s !! u = None
  | _ => True
  end.

Inductive reachable : State → Prop :=
| reachable_init : reachable init
| reachable_step s req :
    reachable s → uuid_ok req s → reachable (handle req s).1.

Definition run (reqs : list Request) (s : State) : State :=
  fold_left (λ s req, (handle req s).1) reqs s.

Fixpoint uuids_ok (reqs : list Request) (s : State) : Prop :=
  match reqs with
  | [] => True
  | req :: reqs => uuid_ok req s ∧ uuids_ok reqs (handle req s).1
  end.

(** ** Sequences of requests *)

(** A sequence of Relay calls from [A] to [B], one per (type, payload) pair,
    with the responses in the order of the calls. *)
Fixpoint relay_all (A B : string) (msgs : list (string * json)) (s : State)
  : State * list Response :=
  match msgs with
  | [] => (s, [])
  | m :: msgs =>
      let '(s1, r) := signal (Some A) (Some B) (Some m.1) m.2 s in
      let '(s2, rs) := relay_all A B msgs s1 in
      (s2, r :: rs)
  end.

(** ** Notions used in the statements *)

(** The items that the handlers put in the queues. *)
Definition signal_event (cid typ : string) (payload : json) : Event :=
  mkEvent "signal" (signal_data cid typ payload).

Definition status_searching : Event := mkEvent "status" searching.

Definition matched_event (rid role peer : string) : Event :=
  mkEvent "matched" (matched_data rid role peer).

(** The peer index, the rooms and the queues that [_leave_current_room]
    leaves behind when [cid] is indexed to the room [rid] (lines 70-84). *)
Definition peer_after_leave (cid : string) (s : State) : gmap string string :=
  match peer_of s !! cid with
  | Some o => if truthy o then delete o (delete cid (peer_of s))
              else delete cid (peer_of s)
  | None => delete cid (peer_of s)
  end.

Definition rooms_after_leave (cid rid : string) (s : State)
  : gmap string (gmap string string) :=
  let ms := remove_member cid (default ∅ (rooms s !! rid)) in
  if decide (ms = ∅) then delete rid (rooms s) else <[rid := ms]> (rooms s).

Definition queues_after_leave (cid : string) (n : bool) (s : State)
  : gmap string (list Event) :=
  match peer_of s !! cid with
  | Some o => if n && truthy o
              then message_queues (_enqueue o "peer-left" (JObj []) s)
              else message_queues s
  | None => message_queues s
  end.

(** A room record: not empty, keyed by "a" and "b" only, every member
    indexed to the room and listed once. *)
Record room_ok (s : State) (rid : string) (ms : gmap string string) : Prop := {
  room_nonempty : ms ≠ ∅;
  room_keys : ∀ k, is_Some (ms !! k) → k = "a" ∨ k = "b";
  room_indexed : ∀ k x, ms !! k = Some x → room_of s !! x = Some rid;
  room_once : ∀ k k' x, ms !! k = Some x → ms !! k' = Some x → k = k'
}.

(** The invariant: the waiting client is in no room; the peer index is
    symmetric and pairs two clients of one room; the room index names rooms
    that exist and list the client; every room record is [room_ok]. *)
Record Inv (s : State) : Prop := {
  Inv_waiting : ∀ w, waiting_id s = Some w → w ≠ "" ∧ room_of s !! w = None;
  Inv_peer : ∀ x y, peer_of s !! x = Some y →
    y ≠ "" ∧ x ≠ y ∧ peer_of s !! y = Some x ∧
    ∃ rid, room_of s !! x = Some rid ∧ room_of s !! y = Some rid;
  Inv_room_of : ∀ x rid, room_of s !! x = Some rid →
    rid ≠ "" ∧ ∃ ms k, rooms s !! rid = Some ms ∧ ms !! k = Some x;
  Inv_rooms : ∀ rid ms, rooms s !! rid = Some ms → room_ok s rid ms
}.

(** The state in which "a" and "b" were paired in the room "r2" and "a"
    then called [/leave]. *)
Definition after_a_leaves : State :=
  run [POST_register "a"; POST_register "b"; POST_find (Some "a") "r1";
       POST_find (Some "b") "r2"; POST_leave (Some "a")] init.

(** The state in which "a" and "b" are paired in the room "r2". *)
Definition a_and_b_paired : State :=
  run [POST_register "a"; POST_register "b"; POST_find (Some "a") "r1";
       POST_find (Some "b") "r2"] init.

(** The members of the room a client is indexed to (none when it is
    indexed to no room). *)
Definition room_members (s : State) (x : string) : gmap string string :=
  match room_of s !! x with
  | Some rid => default ∅ (rooms s !! rid)
  | None => ∅
  end.

(** A client is paired when the room it is indexed to has two members. *)
Definition is_paired (s : State) (x : string) : bool :=
  bool_decide (size (room_members s x) = 2).

(** Symmetry of the peer index. *)
Definition peer_symmetric (s : State) : Prop :=
  ∀ A B, peer_of s !! A = Some B → peer_of s !! B = Some A.

Definition status_left : Event := mkEvent "status" left_the_chat.

(** The item enqueued at line 81. *)
Definition peer_left : Event := mkEvent "peer-left" (JObj []).

(** The state in which "a" registered and asked for a partner, and the
    id "0", which never registered, asked next: the two are paired. *)
Definition paired_with_unregistered : State :=
  run [POST_register "a"; POST_find (Some "a") "r1";
       POST_find (Some "0") "r2"] init.

(** What the peer [B] of a leaver [A] sees in the state [s'] after the
    operation, [q0] being the queue of [B] before it, if it has one: the
    queue with exactly one more item, the event [peer-left] with an empty
    object as data, or still no queue; no peer index entry; and a room index
    entry, if any, that names a room in which [A] is not listed. *)
Definition peer_released (A B : string) (q0 : option (list Event)) (s' : State)
  : Prop :=
  message_queues s' !! B = (λ q, q ++ [mkEvent "peer-left" (JObj [])]) <$> q0 ∧
  peer_of s' !! B = None ∧
  ∀ rid ms k, room_of s' !! B = Some rid → rooms s' !! rid = Some ms →
              ms !! k ≠ Some A.

(** ** The stream, the test route and the unit tests of app.py *)

(** Whether a request field is present and truthy ([if not cid],
    [all([cid, to, typ])]). *)
Definition present (x : option string) : bool :=
  match x with
  | Some v => truthy v
  | None => false
  end.

(** The requests that take items out of the queue of [x]: a round of its
    stream, and the test route called with its id. *)
Definition consumes (req : Request) (x : string) : bool :=
  match req with
  | SSE_next cid => bool_decide (cid = x)
  | POST_test_pull _ (Some cid) => bool_decide (cid = x)
  | _ => false
  end.

(** [n] rounds of the loop of [gen], lines 175-186, for the client [cid]:
    the state after them and the items sent, in order.  A round that times
    out sends only the keep-alive comment and the loop continues. *)
Fixpoint gen_rounds (n : nat) (cid : string) (s : State) : State * list Event :=
  match n with
  | 0 => (s, [])
  | S n =>
      match gen_next cid s with
      | (s1, Some item) =>
          let '(s2, items) := gen_rounds n cid s1 in (s2, item :: items)
      | (s1, None) => gen_rounds n cid s1
      end
  end.

(** [tests_enabled], lines 392-393; [env] is [os.environ]. *)
Definition tests_enabled (env : gmap string string) : bool :=
  bool_decide (default "1" (env !! "ENABLE_TEST_ROUTES") = "1").

(** [d[k]] on a decoded JSON object; [None] stands for the [KeyError] (or
    the [TypeError] on a value that is no object). *)
Fixpoint assoc_get (k : string) (l : list (string * json)) : option json :=
  match l with
  | [] => None
  | (k', v) :: l => if decide (k' = k) then Some v else assoc_get k l
  end.

Definition json_get (k : string) (j : json) : option json :=
  match j with
  | JObj l => assoc_get k l
  | _ => None
  end.

(** [j == x] for a string [x]. *)
Definition json_is_str (x : string) (j : option json) : bool :=
  match j with
  | Some (JStr v) => bool_decide (v = x)
  | _ => false
  end.

(** [AppTests.register], lines 427-430: the id of the response, or [None]
    when an assertion or a lookup fails. *)
Definition test_register (uuid4 : string) (s : State) : State * option string :=
  let '(s, r) := register uuid4 s in
  match r with
  | jsonify body 200 =>
      match json_get "id" body with
      | Some (JStr cid) => (s, Some cid)
      | _ => (s, None)
      end
  | _ => (s, None)
  end.

(** [AppTests.pull], lines 432-435: the decoded list of the response, or
    [None] when the status is not 200. *)
Definition test_pull (env : gmap string string) (cid : string) (s : State)
  : State * option (list json) :=
  let '(s, r) := _test_pull (tests_enabled env) (Some cid) s in
  match r with
  | jsonify (JArr items) 200 => (s, Some items)
  | _ => (s, None)
  end.

(** [any(e['event'] == name for e in items)]. *)
Definition any_event (name : string) (items : list json) : bool :=
  existsb (λ e, json_is_str name (json_get "event" e)) items.

(** [test_match_two_clients_and_signal], lines 437-449, run on the state
    that [setUp] resets; [ua], [ub] are the ids that the two registrations
    draw and [r1], [r2] the values available to the two [/find] calls.  The
    result is [true] when every assertion holds. *)
Definition test_match_two_clients_and_signal (env : gmap string string)
    (ua ub r1 r2 : string) : bool :=
  match test_register ua init with
  | (s, Some a) =>
      match test_register ub s with
      | (s, Some b) =>
          let s := (find_partner (Some a) r1 s).1 in
          let s := (find_partner (Some b) r2 s).1 in
          match test_pull env a s with
          | (s, Some ev_a) =>
              match test_pull env b s with
              | (s, Some ev_b) =>
                  any_event "matched" ev_a && any_event "matched" ev_b &&
                  let s := (signal (Some a) (Some b) (Some "offer")
                              (JObj [("sdp", JStr "x")]) s).1 in
                  match test_pull env b s with
                  | (s, Some ev_b2) =>
                      existsb
                        (λ e, json_is_str "signal" (json_get "event" e) &&
                              json_is_str "offer"
                                (json_get "data" e ≫= json_get "type"))
                        ev_b2
                  | (_, None) => false
                  end
              | (_, None) => false
              end
          | (_, None) => false
          end
      | (_, None) => false
      end
  | (_, None) => false
  end.

(** [test_leave_notifies_peer], lines 451-458. *)
Definition test_leave_notifies_peer (env : gmap string string)
    (ua ub r1 r2 : string) : bool :=
  match test_register ua init with
  | (s, Some a) =>
      match test_register ub s with
      | (s, Some b) =>
          let s := (find_partner (Some a) r1 s).1 in
          let s := (find_partner (Some b) r2 s).1 in
          match test_pull env a s with
          | (s, Some _) =>
              match test_pull env b s with
              | (s, Some _) =>
                  let s := (leave (Some a) s).1 in
                  match test_pull env b s with
                  | (s, Some ev_b) => any_event "peer-left" ev_b
                  | (_, None) => false
                  end
              | (_, None) => false
              end
          | (_, None) => false
          end
      | (_, None) => false
      end
  | (_, None) => false
  end.

(** [test_waiting_status], lines 460-464. *)
Definition test_waiting_status (env : gmap string string) (ua r1 : string)
  : bool :=
  match test_register ua init with
  | (s, Some a) =>
      let s := (find_partner (Some a) r1 s).1 in
      match test_pull env a s with
      | (s, Some ev_a) => any_event "status" ev_a
      | (_, None) => false
      end
  | (_, None) => false
  end.

(** Every queue of [s] is still there in [s'], with items added at the end
    only. *)
Definition extends (s s' : State) : Prop :=
  ∀ x q, message_queues s !! x = Some q →
         ∃ l, message_queues s' !! x = Some (q ++ l).

(** The requests that may change the waiting slot, the rooms or the
    indexes. *)
Definition matchmaking_request (req : Request) : bool :=
  match req with
  | POST_find _ _ | POST_next _ _ | POST_leave _ => true
  | _ => false
  end.

(** ** The matchmaker as the specification words it

    [leaveRoom], [findPartner] and [nextPartner] written from sections 3,
    4.1, 4.2 and 4.3 of the specification, on the specification's own data
    model, without any function of the code. *)
Module Spec.

(** The two roles of a room. *)
Inductive Role : Type := Caller | Callee.

(** An event: its kind with the payload of that kind; the payload of
    [status] and [peer-left] is free-form (resp. empty) and is not kept. *)
Inductive Event : Type :=
| Status
| Matched (room : string) (role : Role) (peer : string)
| Signal (from type : string) (payload : json)
| PeerLeft.

(** A room: its members by role; a member that left is [None]. *)
Record Room : Type := mkRoom { caller : option string; callee : option string }.

(** WaitingSlot, Room Store, Peer Index, Room Index and the
    OutboundChannels; an identity is in the registry when it has a
    channel. *)
Record State : Type := mkState {
  WaitingSlot : option string;
  RoomStore : gmap string Room;
  PeerIndex : gmap string string;
  RoomIndex : gmap string string;
  Channels : gmap string (list Event)
}.

Inductive Result : Type :=
| Waiting
| MatchedIn (roomId : string)
| UnknownIdentity.

(** Emission of an event: it is appended to the channel of the identity,
    "created lazily on first need (registration or first event
    delivery)". *)
Definition emit (id : string) (e : Event) (ch : gmap string (list Event))
  : gmap string (list Event) :=
  <[id := default [] (ch !! id) ++ [e]]> ch.

Definition remove_from_room (id : string) (r : Room) : Room :=
  mkRoom (if decide (caller r = Some id) then None else caller r)
         (if decide (callee r = Some id) then None else callee r).

Definition room_is_empty (r : Room) : Prop := caller r = None ∧ callee r = None.

(** Section 4.3.  If [id] has no room: if it occupies the WaitingSlot, clear
    the slot, otherwise nothing.  Else: look up the peer in the Peer Index;
    remove both directions of the Peer Index entry; remove [id] from the
    room's member set and from the Room Index; if the member set becomes
    empty, delete the room; if [notifyPeer] and a peer existed, emit
    [peer-left] to the peer. *)
Definition leaveRoom (id : string) (notifyPeer : bool) (st : State) : State :=
  match RoomIndex st !! id with
  | None =>
      if decide (WaitingSlot st = Some id)
      then mkState None (RoomStore st) (PeerIndex st) (RoomIndex st) (Channels st)
      else st
  | Some rid =>
      let peer := PeerIndex st !! id in
      let peers :=
        match peer with
        | Some p => delete p (delete id (PeerIndex st))
        | None => delete id (PeerIndex st)
        end in
      let store :=
        match RoomStore st !! rid with
        | Some room =>
            let room' := remove_from_room id room in
            if decide (room_is_empty room')
            then delete rid (RoomStore st)
            else <[rid := room']> (RoomStore st)
        | None => RoomStore st
        end in
      let channels :=
        match peer with
        | Some p => if notifyPeer then emit p PeerLeft (Channels st)
                    else Channels st
        | None => Channels st
        end in
      mkState (WaitingSlot st) store peers (delete id (RoomIndex st)) channels
  end.

(** Section 4.2.  (1) [id] must be in the registry, else [UnknownIdentity].
    (2) If [id] has a room (Room Index hit), it leaves it first, without
    notification.  (3) If the WaitingSlot holds some [other ≠ id]: clear the
    slot, create a room with the fresh id, [other] caller and [id] callee,
    populate both indexes for both, emit [matched] to each with the room
    id, the role and the peer.  (4) Else set the WaitingSlot to [id] and
    emit [status] to [id]. *)
Definition findPartner (id : string) (fresh : string) (st : State)
  : State * Result :=
  match Channels st !! id with
  | None => (st, UnknownIdentity)
  | Some _ =>
      let st := if decide (is_Some (RoomIndex st !! id))
                then leaveRoom id false st else st in
      let wait :=
        (mkState (Some id) (RoomStore st) (PeerIndex st) (RoomIndex st)
           (emit id Status (Channels st)), Waiting) in
      match WaitingSlot st with
      | Some other =>
          if decide (other ≠ id) then
            (mkState None
               (<[fresh := mkRoom (Some other) (Some id)]> (RoomStore st))
               (<[id := other]> (<[other := id]> (PeerIndex st)))
               (<[id := fresh]> (<[other := fresh]> (RoomIndex st)))
               (emit id (Matched fresh Callee other)
                  (emit other (Matched fresh Caller id) (Channels st))),
             MatchedIn fresh)
          else wait
      | None => wait
      end
  end.

(** Section 4.2: [nextPartner(id)] is [leaveRoom(id, notifyPeer=true)]
    immediately followed by [findPartner(id)]. *)
Definition nextPartner (id : string) (fresh : string) (st : State)
  : State * Result :=
  findPartner id fresh (leaveRoom id true st).

End Spec.

(** ** How the state of the code is read as a state of the specification *)

Definition json_str (j : option json) : option string :=
  match j with
  | Some (JStr v) => Some v
  | _ => None
  end.

Definition decode_role (j : option json) : option Spec.Role :=
  match j with
  | Some (JStr v) =>
      if decide (v = "caller") then Some Spec.Caller
      else if decide (v = "callee") then Some Spec.Callee
      else None
  | _ => None
  end.

(** The event of the specification that a queued item stands for: by the
    name of the item and the fields of its data. *)
Definition decode_event (e : Event) : option Spec.Event :=
  if decide (event e = "status") then Some Spec.Status
  else if decide (event e = "peer-left") then
    match data e with
    | JObj [] => Some Spec.PeerLeft
    | _ => None
    end
  else if decide (event e = "matched") then
    room ← json_str (json_get "room" (data e));
    role ← decode_role (json_get "role" (data e));
    peer ← json_str (json_get "peer" (data e));
    Some (Spec.Matched room role peer)
  else if decide (event e = "signal") then
    from ← json_str (json_get "from" (data e));
    typ ← json_str (json_get "type" (data e));
    payload ← json_get "payload" (data e);
    Some (Spec.Signal from typ payload)
  else None.

(** The result that a response stands for. *)
Definition decode_result (r : Response) : option Spec.Result :=
  match r with
  | jsonify body 200 =>
      if json_is_str "waiting" (json_get "status" body) then Some Spec.Waiting
      else if json_is_str "matched" (json_get "status" body)
      then Spec.MatchedIn <$> json_str (json_get "room" body)
      else None
  | _ => None
  end.

(** A room record of the code as a room: "a" is the caller, "b" the
    callee. *)
Definition abs_room (ms : gmap string string) : Spec.Room :=
  Spec.mkRoom (ms !! "a") (ms !! "b").

(** The queues of the code and the channels of the specification hold the
    same events, identity by identity and in the same order. *)
Definition same_events (ch : gmap string (list Spec.Event))
    (mq : gmap string (list Event)) : Prop :=
  (λ l : list Spec.Event, Some <$> l) <$> ch
  = (λ q : list Event, decode_event <$> q) <$> mq.

(** The state [st] of the specification is what the state [s] of the code
    stands for. *)
Record refines (s : State) (st : Spec.State) : Prop := {
  refines_waiting : Spec.WaitingSlot st = waiting_id s;
  refines_rooms : Spec.RoomStore st = abs_room <$> rooms s;
  refines_peer : Spec.PeerIndex st = peer_of s;
  refines_room_of : Spec.RoomIndex st = room_of s;
  refines_queues : same_events (Spec.Channels st) (message_queues s)
}.

(** Every queued item stands for an event of the specification. *)
Definition decodable (s : State) : Prop :=
  ∀ x q, message_queues s !! x = Some q →
         Forall (λ e, is_Some (decode_event e)) q.

(** The state of the specification that a state of the code stands for,
    when its queued items are [decodable]. *)
Definition abs_state (s : State) : Spec.State :=
  Spec.mkState (waiting_id s) (abs_room <$> rooms s) (peer_of s) (room_of s)
    ((λ q : list Event, omap decode_event q) <$> message_queues s).

(** The states of the specification for [init], [a_and_b_paired] and
    [paired_with_unregistered]. *)
Definition spec_init : Spec.State := Spec.mkState None ∅ ∅ ∅ ∅.

Definition spec_a_and_b_paired : Spec.State :=
  Spec.mkState None
    {["r2" := Spec.mkRoom (Some "a") (Some "b")]}
    {["a" := "b"; "b" := "a"]}
    {["a" := "r2"; "b" := "r2"]}
    {["a" := [Spec.Status; Spec.Matched "r2" Spec.Caller "b"];
      "b" := [Spec.Matched "r2" Spec.Callee "a"]]}.

Definition spec_paired_with_unregistered : Spec.State :=
  Spec.mkState None
    {["r2" := Spec.mkRoom (Some "a") (Some "0")]}
    {["a" := "0"; "0" := "a"]}
    {["a" := "r2"; "0" := "r2"]}
    {["a" := [Spec.Status; Spec.Matched "r2" Spec.Caller "0"]]}.

(** * Properties *)

(** ** Basic facts *)

Lemma truthy_ne (x : string) : x ≠ "" → truthy x = true.
Proof. intros H. unfold truthy. by apply bool_decide_eq_true. Qed.

Lemma truthy_inv (x : string) : truthy x = true → x ≠ "".
Proof. unfold truthy. by intros H%bool_decide_eq_true. Qed.

Lemma State_eq (s t : State) :
  waiting_id s = waiting_id t → rooms s = rooms t → peer_of s = peer_of t →
  room_of s = room_of t → message_queues s = message_queues t → s = t.
Proof. destruct s, t; simpl; congruence. Qed.

Lemma _enqueue_Some cid ev d s q :
  message_queues s !! cid = Some q →
  _enqueue cid ev d s
  = set_message_queues (<[cid := q ++ [mkEvent ev d]]> (message_queues s)) s.
Proof. intros H. unfold _enqueue. by rewrite H. Qed.

Lemma _enqueue_None cid ev d s :
  message_queues s !! cid = None → _enqueue cid ev d s = s.
Proof. intros H. unfold _enqueue. by rewrite H. Qed.

(** [_enqueue] touches nothing but the queues. *)
Lemma _enqueue_fields cid ev d s :
  waiting_id (_enqueue cid ev d s) = waiting_id s ∧
  rooms (_enqueue cid ev d s) = rooms s ∧
  peer_of (_enqueue cid ev d s) = peer_of s ∧
  room_of (_enqueue cid ev d s) = room_of s.
Proof. unfold _enqueue. by destruct (message_queues s !! cid). Qed.

(** [_enqueue] never creates a queue. *)
Lemma _enqueue_lookup_None cid ev d s x :
  message_queues s !! x = None →
  message_queues (_enqueue cid ev d s) !! x = None.
Proof.
  intros H. unfold _enqueue.
  destruct (message_queues s !! cid) as [q|] eqn:E; [|done]. simpl.
  rewrite lookup_insert_ne; [done|]. intros ->. congruence.
Qed.

Lemma _enqueue_lookup_ne cid ev d s x :
  x ≠ cid →
  message_queues (_enqueue cid ev d s) !! x = message_queues s !! x.
Proof.
  intros H. unfold _enqueue.
  destruct (message_queues s !! cid) as [q|] eqn:E; [|done]. simpl.
  by rewrite lookup_insert_ne.
Qed.

Lemma _enqueue_lookup_eq cid ev d s q :
  message_queues s !! cid = Some q →
  message_queues (_enqueue cid ev d s) !! cid = Some (q ++ [mkEvent ev d]).
Proof.
  intros H. rewrite (_enqueue_Some _ _ _ _ _ H). simpl. apply lookup_insert_eq.
Qed.

(** ** Relay (the [/signal] route) *)

Lemma signal_delivers (s : State) (cid to typ : string) (payload : json)
    (q : list Event) :
  cid ≠ "" → to ≠ "" → typ ≠ "" → message_queues s !! to = Some q →
  signal (Some cid) (Some to) (Some typ) payload s
  = (set_message_queues
       (<[to := q ++ [signal_event cid typ payload]]> (message_queues s)) s,
     ok).
Proof.
  intros Hc Ht Hy Hq. unfold signal. rewrite !truthy_ne by done.
  cbn [andb]. rewrite Hq. f_equal. by apply _enqueue_Some.
Qed.

(** C6.  For a Relay call whose [from], [to] and [kind] are all non-empty:
    the call fails with "peer not found" (404) exactly when [to] has no
    queue, and then the state is unchanged; otherwise it answers ok and the
    only change of the state is one item appended to the queue of [to]: the
    event [signal] whose data is the object with [from] the sender, [type]
    the kind and [payload] the payload as received.  The statement holds in
    every state: the peer index is not consulted. *)
Theorem signal_relay (s : State) (cid to typ : string) (payload : json) :
  cid ≠ "" → to ≠ "" → typ ≠ "" →
  let s' := (signal (Some cid) (Some to) (Some typ) payload s).1 in
  let r := (signal (Some cid) (Some to) (Some typ) payload s).2 in
  (r = jsonify (JObj [("error", JStr "peer not found")]) 404
   ↔ message_queues s !! to = None) ∧
  (status_code r ≠ 200 ↔ message_queues s !! to = None) ∧
  (message_queues s !! to = None → s' = s) ∧
  (∀ q, message_queues s !! to = Some q →
        r = jsonify (JObj [("ok", JBool true)]) 200 ∧
        s' = set_message_queues
               (<[to := q ++ [mkEvent "signal"
                                (JObj [("from", JStr cid); ("type", JStr typ);
                                       ("payload", payload)])]]>
                  (message_queues s)) s).
Proof.
  intros Hc Ht Hy. cbn zeta.
  destruct (message_queues s !! to) as [q|] eqn:E.
  - rewrite (signal_delivers s cid to typ payload q) by done.
    split_and!; [done|split; [by intros []|done]|done|].
    intros q' [= <-]. done.
  - unfold signal. rewrite !truthy_ne by done. cbn [andb]. rewrite E.
    split_and!; [done|split; [done|by intros _ [=]]|done|done].
Qed.

Lemma signal_relay_witness :
  (signal (Some "a") (Some "b") (Some "offer") (JObj [("sdp", JStr "x")])
     (register "b" init).1).2 = jsonify (JObj [("ok", JBool true)]) 200 ∧
  (signal (Some "a") (Some "b") (Some "offer") (JObj [("sdp", JStr "x")])
     (register "b" init).1).1
  = set_message_queues
      (<["b" := [] ++ [mkEvent "signal"
                         (JObj [("from", JStr "a"); ("type", JStr "offer");
                                ("payload", JObj [("sdp", JStr "x")])])]]>
         (message_queues (register "b" init).1))
      (register "b" init).1.
Proof.
  destruct (signal_relay (register "b" init).1 "a" "b" "offer"
              (JObj [("sdp", JStr "x")])) as (_ & _ & _ & H);
    [discriminate ..|].
  apply (H []). reflexivity.
Defined.

(** C8.  N successful Relay calls from [A] to [B], made one after the other
    with nothing else enqueued to [B] in between, all answer ok and leave in
    the queue of [B], after what was already pending, the N [signal] events
    in the order of the calls; nothing else in the state changes. *)
Theorem relay_all_in_order (A B : string) (msgs : list (string * json))
    (s : State) (q : list Event) :
  A ≠ "" → B ≠ "" → Forall (λ m, m.1 ≠ "") msgs →
  message_queues s !! B = Some q →
  relay_all A B msgs s
  = (set_message_queues
       (<[B := q ++ map (λ m, signal_event A m.1 m.2) msgs]> (message_queues s)) s,
     repeat ok (length msgs)).
Proof.
  intros HA HB Hm. revert s q.
  induction Hm as [|m msgs Hm1 Hm IH]; intros s q Hq;
    cbn [relay_all map length repeat].
  - rewrite app_nil_r. f_equal. apply State_eq; simpl; try done.
    by rewrite insert_id.
  - rewrite (signal_delivers s A B m.1 m.2 q) by done.
    rewrite (IH _ (q ++ [signal_event A m.1 m.2])); [|simpl; apply lookup_insert_eq].
    f_equal. apply State_eq; simpl; try done.
    rewrite insert_insert_eq. by rewrite <- app_assoc.
Qed.

Lemma relay_all_in_order_witness :
  relay_all "a" "b" [("offer", JStr "1"); ("candidate", JStr "2")]
    (register "b" init).1
  = (set_message_queues
       (<["b" := [] ++ map (λ m, signal_event "a" m.1 m.2)
                         [("offer", JStr "1"); ("candidate", JStr "2")]]>
          (message_queues (register "b" init).1))
       (register "b" init).1,
     repeat ok (length [("offer", JStr "1"); ("candidate", JStr "2")])).
Proof.
  apply relay_all_in_order.
  - discriminate.
  - discriminate.
  - repeat constructor; discriminate.
  - reflexivity.
Defined.

(** ** Matchmaking (the [/find] route) *)

Lemma find_partner_Some cid u s :
  cid ≠ "" → find_partner (Some cid) u s = find_partner_body cid u s.
Proof. intros H. unfold find_partner. by rewrite truthy_ne. Qed.

(** The two outcomes of [find_partner_body], by the waiting slot seen after
    the implicit leave. *)
Lemma find_partner_body_matched cid u s other :
  waiting_id (leave_if_in_room cid s) = Some other → other ≠ "" → other ≠ cid →
  find_partner_body cid u s
  = (pair_up other cid u (leave_if_in_room cid s), matched u).
Proof.
  intros Hw H1 H2. unfold find_partner_body. cbn zeta. rewrite Hw.
  rewrite truthy_ne by done. by rewrite bool_decide_eq_true_2.
Qed.

Lemma find_partner_body_waiting cid u s :
  (∀ other, waiting_id (leave_if_in_room cid s) = Some other →
            other = "" ∨ other = cid) →
  find_partner_body cid u s
  = (become_waiting cid (leave_if_in_room cid s), waiting).
Proof.
  intros Hw. unfold find_partner_body. cbn zeta.
  destruct (waiting_id (leave_if_in_room cid s)) as [other|]; [|done].
  destruct (Hw other eq_refl) as [-> | ->]; [done|].
  rewrite bool_decide_eq_false_2 by (by intros []).
  by rewrite andb_false_r.
Qed.

Lemma find_partner_body_cases cid u s :
  (∃ other, waiting_id (leave_if_in_room cid s) = Some other ∧
            other ≠ "" ∧ other ≠ cid ∧
            find_partner_body cid u s
            = (pair_up other cid u (leave_if_in_room cid s), matched u))
  ∨ ((∀ other, waiting_id (leave_if_in_room cid s) = Some other →
               other = "" ∨ other = cid) ∧
     find_partner_body cid u s
     = (become_waiting cid (leave_if_in_room cid s), waiting)).
Proof.
  destruct (waiting_id (leave_if_in_room cid s)) as [other|] eqn:Hw.
  - destruct (decide (other = "")) as [->|H1].
    { right. split; [naive_solver|].
      apply find_partner_body_waiting. naive_solver. }
    destruct (decide (other = cid)) as [->|H2].
    { right. split; [naive_solver|].
      apply find_partner_body_waiting. naive_solver. }
    left. exists other. split_and!; try done.
    by apply find_partner_body_matched.
  - right. split; [naive_solver|].
    apply find_partner_body_waiting. naive_solver.
Qed.

(** The matchmaking fields after [pair_up] and [become_waiting]. *)
Lemma pair_up_fields other cid rid s :
  waiting_id (pair_up other cid rid s) = None ∧
  rooms (pair_up other cid rid s) = <[rid := {["a" := other; "b" := cid]}]> (rooms s) ∧
  peer_of (pair_up other cid rid s) = <[cid := other]> (<[other := cid]> (peer_of s)) ∧
  room_of (pair_up other cid rid s) = <[cid := rid]> (<[other := rid]> (room_of s)).
Proof.
  unfold pair_up. cbn zeta.
  rewrite !(proj1 (_enqueue_fields _ _ _ _)).
  rewrite !(proj1 (proj2 (_enqueue_fields _ _ _ _))).
  rewrite !(proj1 (proj2 (proj2 (_enqueue_fields _ _ _ _)))).
  rewrite !(proj2 (proj2 (proj2 (_enqueue_fields _ _ _ _)))).
  done.
Qed.

Lemma become_waiting_fields cid s :
  waiting_id (become_waiting cid s) = Some cid ∧
  rooms (become_waiting cid s) = rooms s ∧
  peer_of (become_waiting cid s) = peer_of s ∧
  room_of (become_waiting cid s) = room_of s.
Proof.
  unfold become_waiting. cbn zeta.
  destruct (_enqueue_fields cid "status" searching (set_waiting_id (Some cid) s))
    as (-> & -> & -> & ->). done.
Qed.

Lemma leave_if_in_room_absent cid s :
  room_of s !! cid = None → leave_if_in_room cid s = s.
Proof.
  intros H. unfold leave_if_in_room. rewrite decide_False; [done|].
  rewrite H. by intros [? ?].
Qed.

(** *** What [_leave_current_room] does to each part of the state *)

Ltac leave_cases :=
  unfold _leave_current_room;
  repeat (case_match || case_decide); simplify_eq/=;
  rewrite ?(proj1 (_enqueue_fields _ _ _ _));
  rewrite ?(proj1 (proj2 (_enqueue_fields _ _ _ _)));
  rewrite ?(proj1 (proj2 (proj2 (_enqueue_fields _ _ _ _))));
  rewrite ?(proj2 (proj2 (proj2 (_enqueue_fields _ _ _ _))));
  simpl.

Lemma leave_waiting_inv cid n s w :
  waiting_id (_leave_current_room cid n s) = Some w → waiting_id s = Some w.
Proof. leave_cases; done. Qed.

Lemma leave_room_of cid n s :
  room_of (_leave_current_room cid n s) = delete cid (room_of s).
Proof. leave_cases; done. Qed.

Lemma leave_queue_None cid n s x :
  message_queues s !! x = None →
  message_queues (_leave_current_room cid n s) !! x = None.
Proof.
  intros H. unfold _leave_current_room.
  repeat (case_match || case_decide); simplify_eq/=; try done;
    by apply _enqueue_lookup_None.
Qed.

Lemma leave_queues_silent cid s :
  message_queues (_leave_current_room cid false s) = message_queues s.
Proof. leave_cases; done. Qed.

Lemma leave_if_in_room_queues cid s :
  message_queues (leave_if_in_room cid s) = message_queues s.
Proof.
  unfold leave_if_in_room. case_decide; [apply leave_queues_silent|done].
Qed.

Lemma leave_if_in_room_waiting cid s w :
  waiting_id s = Some w → w ≠ cid →
  waiting_id (leave_if_in_room cid s) = Some w.
Proof.
  intros Hw Hne. unfold leave_if_in_room. case_decide; [|done].
  unfold _leave_current_room.
  repeat (case_match || case_decide); simplify_eq/=;
    rewrite ?(proj1 (_enqueue_fields _ _ _ _)); done.
Qed.

Lemma pair_up_queues w cid u s qw qc :
  w ≠ cid → message_queues s !! w = Some qw → message_queues s !! cid = Some qc →
  message_queues (pair_up w cid u s)
  = <[cid := qc ++ [matched_event u "callee" w]]>
      (<[w := qw ++ [matched_event u "caller" cid]]> (message_queues s)).
Proof.
  intros Hne Hw Hc. unfold pair_up. cbn zeta.
  rewrite (_enqueue_Some w _ _ _ qw) by done.
  rewrite (_enqueue_Some cid _ _ _ qc) by (simpl; by rewrite lookup_insert_ne).
  done.
Qed.

Lemma become_waiting_queues cid s q :
  message_queues s !! cid = Some q →
  message_queues (become_waiting cid s)
  = <[cid := q ++ [status_searching]]> (message_queues s).
Proof.
  intros H. unfold become_waiting. cbn zeta.
  by rewrite (_enqueue_Some cid _ _ _ q).
Qed.

Lemma leave_if_in_room_waiting_inv cid s w :
  waiting_id (leave_if_in_room cid s) = Some w → waiting_id s = Some w.
Proof.
  unfold leave_if_in_room. case_decide; [apply leave_waiting_inv|done].
Qed.

(** C3.  Two distinct registered identities [A] and [B], with nobody
    waiting: [A] asks for a partner and is told to wait, then [B] asks and
    is told [matched] with the room id drawn for the call.  Afterwards nobody
    is waiting, the room drawn holds [A] under "a" and [B] under "b", each is
    the peer of the other, both are indexed to that room, and the queue of
    each received its [matched] event, whose data is the object with [room]
    the room id, [role] the role ([caller] for [A], [callee] for [B]) and
    [peer] the other identity; no other queue changes.  This holds in every
    state, whether [A] and [B] are in no room or were left behind in one;
    when both are in no room the rest of the rooms and of the indexes is
    unchanged. *)
Theorem find_partner_pairs (s : State) (A B u1 u2 : string) (qA qB : list Event) :
  A ≠ "" → B ≠ "" → A ≠ B →
  waiting_id s = None →
  message_queues s !! A = Some qA → message_queues s !! B = Some qB →
  let s1 := (find_partner (Some A) u1 s).1 in
  let s2 := (find_partner (Some B) u2 s1).1 in
  (find_partner (Some A) u1 s).2 = jsonify (JObj [("status", JStr "waiting")]) 200 ∧
  waiting_id s1 = Some A ∧
  (find_partner (Some B) u2 s1).2
  = jsonify (JObj [("status", JStr "matched"); ("room", JStr u2)]) 200 ∧
  waiting_id s2 = None ∧
  rooms s2 !! u2 = Some {["a" := A; "b" := B]} ∧
  peer_of s2 !! A = Some B ∧ peer_of s2 !! B = Some A ∧
  room_of s2 !! A = Some u2 ∧ room_of s2 !! B = Some u2 ∧
  message_queues s2
  = <[B := qB ++ [mkEvent "matched"
                    (JObj [("room", JStr u2); ("role", JStr "callee");
                           ("peer", JStr A)])]]>
      (<[A := qA ++ [mkEvent "status"
                       (JObj [("msg", JStr "Searching for a partner…")]);
                     mkEvent "matched"
                       (JObj [("room", JStr u2); ("role", JStr "caller");
                              ("peer", JStr B)])]]>
         (message_queues s)) ∧
  (room_of s !! A = None → room_of s !! B = None →
   rooms s2 = <[u2 := {["a" := A; "b" := B]}]> (rooms s) ∧
   peer_of s2 = <[B := A]> (<[A := B]> (peer_of s)) ∧
   room_of s2 = <[B := u2]> (<[A := u2]> (room_of s))).
Proof.
  intros HA HB HAB Hw HqA HqB. cbn zeta.
  rewrite (find_partner_Some A) by done.
  remember (leave_if_in_room A s) as LA eqn:HLA.
  assert (waiting_id LA = None) as HwLA.
  { destruct (waiting_id LA) as [w|] eqn:E; [|done]. subst LA.
    apply leave_if_in_room_waiting_inv in E. congruence. }
  assert (message_queues LA = message_queues s) as HqLA
    by (subst LA; apply leave_if_in_room_queues).
  rewrite (find_partner_body_waiting A u1 s); rewrite <- ?HLA;
    [|by rewrite HwLA].
  cbn [fst snd].
  remember (become_waiting A LA) as s1 eqn:Hs1.
  destruct (become_waiting_fields A LA) as (Hw1 & Hro1 & Hp1 & Hr1).
  rewrite <- Hs1 in Hw1, Hro1, Hp1, Hr1.
  assert (message_queues s1 = <[A := qA ++ [status_searching]]> (message_queues s))
    as Hq1.
  { subst s1. rewrite (become_waiting_queues A LA qA) by by rewrite HqLA.
    by rewrite HqLA. }
  rewrite (find_partner_Some B) by done.
  remember (leave_if_in_room B s1) as LB eqn:HLB.
  assert (waiting_id LB = Some A) as HwLB
    by (subst LB; by apply leave_if_in_room_waiting).
  assert (message_queues LB = message_queues s1) as HqLB
    by (subst LB; apply leave_if_in_room_queues).
  rewrite (find_partner_body_matched B u2 s1 A); rewrite <- ?HLB; try done.
  cbn [fst snd].
  destruct (pair_up_fields A B u2 LB) as (-> & -> & -> & ->).
  rewrite (pair_up_queues A B u2 LB (qA ++ [status_searching]) qB); try done;
    [|rewrite HqLB, Hq1; apply lookup_insert_eq
     |rewrite HqLB, Hq1; by rewrite lookup_insert_ne].
  split_and!; try done.
  - apply lookup_insert_eq.
  - rewrite lookup_insert_ne by done. apply lookup_insert_eq.
  - apply lookup_insert_eq.
  - rewrite lookup_insert_ne by done. apply lookup_insert_eq.
  - apply lookup_insert_eq.
  - rewrite HqLB, Hq1, insert_insert_eq. by rewrite <- app_assoc.
  - intros HrA HrB.
    assert (LA = s) as ELA by (subst LA; by apply leave_if_in_room_absent).
    assert (LB = s1) as ELB.
    { subst LB. apply leave_if_in_room_absent. by rewrite Hr1, ELA. }
    by rewrite ELB, Hro1, Hp1, Hr1, ELA.
Qed.

(** The state in which "a", "b" and "c" registered, "a" and "b" were paired
    in the room "r2" and "a" then called [/leave]: "b" is left behind, alone
    in "r2". *)
Lemma find_partner_pairs_witness :
  (find_partner (Some "c") "r4"
     (find_partner (Some "b") "r3"
        (run [POST_register "a"; POST_register "b"; POST_register "c";
              POST_find (Some "a") "r1"; POST_find (Some "b") "r2";
              POST_leave (Some "a")] init)).1).2
  = jsonify (JObj [("status", JStr "matched"); ("room", JStr "r4")]) 200 ∧
  peer_of (find_partner (Some "c") "r4"
     (find_partner (Some "b") "r3"
        (run [POST_register "a"; POST_register "b"; POST_register "c";
              POST_find (Some "a") "r1"; POST_find (Some "b") "r2";
              POST_leave (Some "a")] init)).1).1 !! "b" = Some "c".
Proof.
  destruct (find_partner_pairs
              (run [POST_register "a"; POST_register "b"; POST_register "c";
                    POST_find (Some "a") "r1"; POST_find (Some "b") "r2";
                    POST_leave (Some "a")] init)
              "b" "c" "r3" "r4"
              [mkEvent "matched"
                 (JObj [("room", JStr "r2"); ("role", JStr "callee");
                        ("peer", JStr "a")]);
               mkEvent "peer-left" (JObj [])] [])
    as (_ & _ & H1 & _ & _ & H2 & _);
    [(discriminate || reflexivity) ..|].
  split; [exact H1|exact H2].
Defined.

(** *** Identities that were never registered *)

(** The claim of C2 fails on the code.  In the initial state nothing was
    ever registered, yet [find_partner] with the identity "x" answers
    [waiting] with status 200 and puts "x" in the waiting slot, and [events]
    answers with the stream and creates a queue for "x". *)
Lemma unregistered_identity_counterexample :
  message_queues init !! "x" = None ∧
  (find_partner (Some "x") "u" init).2 = waiting ∧
  status_code (find_partner (Some "x") "u" init).2 = 200 ∧
  waiting_id (find_partner (Some "x") "u" init).1 = Some "x" ∧
  (find_partner (Some "x") "u" init).1 ≠ init ∧
  (events (Some "x") init).2 = event_stream ∧
  message_queues (events (Some "x") init).1 !! "x" = Some [].
Proof. split_and!; try reflexivity. intros H. discriminate H. Qed.

(** C2, amended.  Neither FindPartner nor Subscribe consults a registry.
    For every non-empty identity, registered or not, [find_partner] answers
    with status 200: either [waiting], with the identity in the waiting
    slot, or [matched], with the identity paired to the client that was
    waiting.  When the identity has no queue none is created by
    [find_partner] (its events are dropped).  [events] answers with the
    stream and creates an empty queue when the identity has none.  The only
    rejection is "missing id" (400), for an absent or empty id, and it
    changes nothing. *)
Theorem find_and_events_accept_any_id (s : State) (id u : string) :
  id ≠ "" →
  let s' := (find_partner (Some id) u s).1 in
  let r := (find_partner (Some id) u s).2 in
  status_code r = 200 ∧
  (r = waiting ∧ waiting_id s' = Some id
   ∨ r = matched u ∧ waiting_id s' = None ∧
     ∃ other, other ≠ id ∧ waiting_id s = Some other ∧
              peer_of s' !! id = Some other ∧ peer_of s' !! other = Some id) ∧
  (message_queues s !! id = None → message_queues s' !! id = None) ∧
  events (Some id) s = (_ensure_queue id s, event_stream) ∧
  (message_queues s !! id = None →
   message_queues (events (Some id) s).1 = <[id := []]> (message_queues s)) ∧
  find_partner None u s = (s, missing_id) ∧
  find_partner (Some "") u s = (s, missing_id) ∧
  events None s = (s, missing_id) ∧
  events (Some "") s = (s, missing_id).
Proof.
  intros Hid. cbn zeta.
  assert (events (Some id) s = (_ensure_queue id s, event_stream)) as Hev.
  { unfold events. by rewrite truthy_ne. }
  rewrite Hev, find_partner_Some by done.
  assert (∀ w, waiting_id (leave_if_in_room id s) = Some w →
               waiting_id s = Some w) as Hw.
  { intros w. unfold leave_if_in_room.
    case_decide; [apply leave_waiting_inv|done]. }
  assert (message_queues s !! id = None →
          message_queues (leave_if_in_room id s) !! id = None) as Hq.
  { unfold leave_if_in_room. case_decide; [apply leave_queue_None|done]. }
  destruct (find_partner_body_cases id u s)
    as [(other & Ho & H1 & H2 & ->) | [_ ->]]; cbn [fst snd].
  - destruct (pair_up_fields other id u (leave_if_in_room id s))
      as (-> & _ & -> & _).
    split_and!; try done.
    + right. split_and!; try done. exists other.
      split_and!; [done|by apply Hw|apply lookup_insert_eq|].
      rewrite lookup_insert_ne by done. apply lookup_insert_eq.
    + intros Hn. unfold pair_up. cbn zeta.
      repeat apply _enqueue_lookup_None. simpl. by apply Hq.
    + intros Hn. unfold _ensure_queue. by rewrite Hn.
  - destruct (become_waiting_fields id (leave_if_in_room id s)) as (-> & _).
    split_and!; try done.
    + by left.
    + intros Hn. unfold become_waiting. cbn zeta.
      apply _enqueue_lookup_None. simpl. by apply Hq.
    + intros Hn. unfold _ensure_queue. by rewrite Hn.
Qed.

Lemma find_and_events_accept_any_id_witness :
  status_code (find_partner (Some "x") "u" init).2 = 200 ∧
  events (Some "x") init = (_ensure_queue "x" init, event_stream).
Proof.
  destruct (find_and_events_accept_any_id init "x" "u") as (H1 & _ & _ & H2 & _).
  - discriminate.
  - split; [exact H1|exact H2].
Defined.

(** The two branches of [_leave_current_room], field by field. *)
Lemma leave_not_in_room cid n s :
  room_of s !! cid = None ∨ room_of s !! cid = Some "" →
  _leave_current_room cid n s
  = set_room_of (delete cid (room_of s))
      (if decide (waiting_id s = Some cid) then set_waiting_id None s else s).
Proof.
  intros [H|H]; unfold _leave_current_room; rewrite H; simpl;
    by case_decide.
Qed.

Lemma leave_in_room cid n s rid :
  room_of s !! cid = Some rid → rid ≠ "" →
  _leave_current_room cid n s
  = mkState (waiting_id s) (rooms_after_leave cid rid s)
      (peer_after_leave cid s) (delete cid (room_of s))
      (queues_after_leave cid n s).
Proof.
  intros H Hrid. unfold _leave_current_room. rewrite H, truthy_ne by done.
  unfold rooms_after_leave, peer_after_leave, queues_after_leave.
  cbn zeta. cbn [rooms peer_of set_room_of set_peer_of].
  destruct (peer_of s !! cid) as [o|]; [destruct (truthy o), n|];
    cbn [andb rooms peer_of message_queues set_rooms set_peer_of set_room_of];
    case_decide; apply State_eq; simpl;
    rewrite ?(proj1 (_enqueue_fields _ _ _ _)),
      ?(proj1 (proj2 (_enqueue_fields _ _ _ _))),
      ?(proj1 (proj2 (proj2 (_enqueue_fields _ _ _ _)))),
      ?(proj2 (proj2 (proj2 (_enqueue_fields _ _ _ _)))); simpl;
    rewrite ?delete_insert_eq; try done;
    unfold _enqueue; simpl; by destruct (message_queues s !! o).
Qed.

(** ** The invariant of the matchmaking state *)

Lemma Inv_init : Inv init.
Proof. split; simpl; intros *; by rewrite ?lookup_empty. Qed.

(** The invariant does not read the queues. *)
Lemma Inv_ext s t :
  waiting_id s = waiting_id t → rooms s = rooms t → peer_of s = peer_of t →
  room_of s = room_of t → Inv s → Inv t.
Proof.
  intros Hw Hr Hp Ho [I1 I2 I3 I4].
  split; rewrite <- ?Hw, <- ?Hr, <- ?Hp, <- ?Ho; try done.
  intros rid ms H. destruct (I4 rid ms H) as [? ? ? ?].
  split; rewrite <- ?Ho; done.
Qed.

Lemma Inv_enqueue cid ev d s : Inv s → Inv (_enqueue cid ev d s).
Proof.
  destruct (_enqueue_fields cid ev d s) as (? & ? & ? & ?).
  by apply Inv_ext.
Qed.

Lemma Inv_set_message_queues q s : Inv s → Inv (set_message_queues q s).
Proof. by apply Inv_ext. Qed.

Lemma Inv_ensure_queue cid s : Inv s → Inv (_ensure_queue cid s).
Proof.
  unfold _ensure_queue. destruct (message_queues s !! cid); [done|].
  apply Inv_set_message_queues.
Qed.

Lemma remove_member_lookup cid ms k x :
  remove_member cid ms !! k = Some x ↔ ms !! k = Some x ∧ x ≠ cid.
Proof. unfold remove_member. by rewrite map_lookup_filter_Some. Qed.

Lemma remove_member_empty cid ms :
  remove_member cid ms = ∅ ↔ ∀ k x, ms !! k = Some x → x = cid.
Proof.
  rewrite map_empty. split.
  - intros H k x Hk. destruct (decide (x = cid)) as [|Hne]; [done|].
    specialize (H k). apply eq_None_not_Some in H. destruct H.
    exists x. by apply remove_member_lookup.
  - intros H k. apply eq_None_not_Some. intros [x Hx].
    apply remove_member_lookup in Hx as [Hx Hne]. naive_solver.
Qed.

(** [_leave_current_room] keeps the invariant. *)
Lemma Inv_leave cid n s : Inv s → Inv (_leave_current_room cid n s).
Proof.
  intros HI. destruct (room_of s !! cid) as [rid|] eqn:Hrid.
  - destruct HI as [I1 I2 I3 I4].
    destruct (I3 _ _ Hrid) as (Hne & ms & kc & Hms & Hkc).
    rewrite (leave_in_room _ _ _ rid) by done.
    assert (∀ x y, peer_after_leave cid s !! x = Some y →
                   peer_of s !! x = Some y ∧ x ≠ cid ∧ y ≠ cid ∧
                   peer_after_leave cid s !! y = Some x) as HP.
    { intros x y. unfold peer_after_leave.
      destruct (peer_of s !! cid) as [o|] eqn:Ho.
      - destruct (I2 _ _ Ho) as (Ho1 & Ho2 & Ho3 & _).
        rewrite truthy_ne by done.
        rewrite !lookup_delete_Some. intros (Hxo & Hxc & Hx).
        destruct (I2 _ _ Hx) as (_ & _ & Hy & _).
        split_and!; try done; congruence.
      - rewrite !lookup_delete_Some. intros (Hxc & Hx).
        destruct (I2 _ _ Hx) as (_ & _ & Hy & _).
        split_and!; try done; congruence. }
    assert (∀ r m, rooms_after_leave cid rid s !! r = Some m →
                   (r = rid ∧ m = remove_member cid ms ∧ m ≠ ∅)
                   ∨ (r ≠ rid ∧ rooms s !! r = Some m)) as HR.
    { intros r m. unfold rooms_after_leave. rewrite Hms. cbn zeta. simpl.
      case_decide as He.
      - rewrite lookup_delete_Some. intros [Hr Hm]. right. by split.
      - rewrite lookup_insert_Some. intros [[<- <-] | [Hr Hm]].
        + by left.
        + right. by split. }
    split; simpl.
    + intros w Hw. destruct (I1 _ Hw) as [? Hn]. split; [done|].
      rewrite lookup_delete_None. by right.
    + intros x y Hxy. destruct (HP _ _ Hxy) as (Hx & Hxc & Hyc & Hyx).
      destruct (I2 _ _ Hx) as (? & ? & ? & r & ? & ?).
      split_and!; try done. exists r.
      by rewrite !lookup_delete_ne.
    + intros x r. rewrite lookup_delete_Some. intros [Hxc Hx].
      destruct (I3 _ _ Hx) as (? & m & k & Hm & Hk). split; [done|].
      unfold rooms_after_leave. rewrite Hms. cbn zeta. simpl.
      destruct (decide (r = rid)) as [->|Hr].
      * assert (m = ms) as -> by congruence.
        assert (remove_member cid ms !! k = Some x) as Hk'
          by by apply remove_member_lookup.
        rewrite decide_False by (intros He; by rewrite He, lookup_empty in Hk').
        exists (remove_member cid ms), k. by rewrite lookup_insert_eq.
      * exists m, k. case_decide.
        -- by rewrite lookup_delete_ne.
        -- by rewrite lookup_insert_ne.
    + intros r m Hm. destruct (HR _ _ Hm) as [(-> & -> & He) | [Hr Hm']].
      * destruct (I4 _ _ Hms) as [R1 R2 R3 R4]. split; simpl.
        -- done.
        -- intros k [x [Hx _]%remove_member_lookup]. apply R2. by exists x.
        -- intros k x [Hx Hxc]%remove_member_lookup.
           rewrite lookup_delete_ne by done. by eapply R3.
        -- intros k k' x [Hx _]%remove_member_lookup
             [Hx' _]%remove_member_lookup. by eapply R4.
      * destruct (I4 _ _ Hm') as [R1 R2 R3 R4]. split; simpl; try done.
        intros k x Hx. specialize (R3 _ _ Hx).
        rewrite lookup_delete_ne; [done|]. intros ->. congruence.
  - rewrite leave_not_in_room by by left.
    rewrite delete_id by done.
    destruct (decide (waiting_id s = Some cid)) as [Hw|Hw]; [|by destruct s].
    destruct HI as [I1 I2 I3 I4]. split; simpl; try done.
    intros rid ms Hms. destruct (I4 rid ms Hms). by split.
Qed.

Lemma leave_if_in_room_room_of cid s :
  room_of (leave_if_in_room cid s) !! cid = None.
Proof.
  unfold leave_if_in_room. case_decide as H.
  - rewrite leave_room_of. apply lookup_delete_eq.
  - by apply eq_None_not_Some.
Qed.

Lemma Inv_leave_if_in_room cid s : Inv s → Inv (leave_if_in_room cid s).
Proof. unfold leave_if_in_room. case_decide; [apply Inv_leave|done]. Qed.

(** A leave creates no room: an identifier that keys no room still keys
    none afterwards. *)
Lemma leave_rooms_None cid n s u :
  Inv s → rooms s !! u = None →
  rooms (_leave_current_room cid n s) !! u = None.
Proof.
  intros HI Hu. destruct (room_of s !! cid) as [rid|] eqn:Hrid.
  - destruct (Inv_room_of _ HI _ _ Hrid) as (Hne & ms & k & Hms & _).
    rewrite (leave_in_room _ _ _ rid) by done. simpl.
    assert (u ≠ rid) by (intros ->; congruence).
    unfold rooms_after_leave. cbn zeta. case_decide.
    + by rewrite lookup_delete_ne.
    + by rewrite lookup_insert_ne.
  - rewrite leave_not_in_room by by left. simpl. by case_decide.
Qed.

Lemma leave_if_in_room_rooms_None cid s u :
  Inv s → rooms s !! u = None → rooms (leave_if_in_room cid s) !! u = None.
Proof.
  intros. unfold leave_if_in_room. case_decide; [by apply leave_rooms_None|done].
Qed.

Lemma Inv_become_waiting cid s :
  cid ≠ "" → room_of s !! cid = None → Inv s → Inv (become_waiting cid s).
Proof.
  intros Hc Hr [I1 I2 I3 I4].
  destruct (become_waiting_fields cid s) as (Hw & Hro & Hp & Hr').
  split; rewrite ?Hw, ?Hro, ?Hp, ?Hr'; try done.
  - by intros w [= <-].
  - intros rid ms Hms. destruct (I4 rid ms Hms). split; rewrite ?Hr'; done.
Qed.

Lemma pair_lookup (x y k z : string) :
  ({["a" := x; "b" := y]} : gmap string string) !! k = Some z ↔
  (k = "a" ∧ z = x) ∨ (k = "b" ∧ z = y).
Proof.
  rewrite lookup_insert_Some, lookup_singleton_Some.
  split; [intros [[<- <-] | [? [<- <-]]]; auto|].
  intros [[-> ->] | [-> ->]]; [by left|right]. by split.
Qed.

Lemma Inv_pair_up other cid u s :
  other ≠ "" → cid ≠ "" → other ≠ cid → u ≠ "" →
  room_of s !! other = None → room_of s !! cid = None →
  rooms s !! u = None →
  Inv s → Inv (pair_up other cid u s).
Proof.
  intros Ho Hc Hoc Hu Hro Hrc Hru [I1 I2 I3 I4].
  destruct (pair_up_fields other cid u s) as (Hw & Hrooms & Hp & Hr).
  assert (peer_of s !! other = None) as Hpo.
  { apply eq_None_not_Some. intros [y Hy].
    destruct (I2 _ _ Hy) as (_ & _ & _ & r & ? & _). congruence. }
  assert (peer_of s !! cid = None) as Hpc.
  { apply eq_None_not_Some. intros [y Hy].
    destruct (I2 _ _ Hy) as (_ & _ & _ & r & ? & _). congruence. }
  split; rewrite ?Hw, ?Hrooms, ?Hp, ?Hr.
  - done.
  - intros x y Hxy. rewrite !lookup_insert_Some in Hxy.
    destruct Hxy as [[<- <-] | [Hxc [[<- <-] | [Hxo Hxy]]]].
    + split_and!; try done.
      * rewrite lookup_insert_ne by done. apply lookup_insert_eq.
      * exists u. split; [apply lookup_insert_eq|].
        rewrite lookup_insert_ne by done. apply lookup_insert_eq.
    + split_and!; try done.
      * apply lookup_insert_eq.
      * exists u. split; [|apply lookup_insert_eq].
        rewrite lookup_insert_ne by done. apply lookup_insert_eq.
    + destruct (I2 _ _ Hxy) as (? & ? & Hyx & r & Hrx & Hry).
      assert (y ≠ cid) by (intros ->; congruence).
      assert (y ≠ other) by (intros ->; congruence).
      split_and!; try done.
      * by rewrite !lookup_insert_ne.
      * exists r. by rewrite !lookup_insert_ne.
  - intros x r Hx. rewrite !lookup_insert_Some in Hx.
    destruct Hx as [[<- <-] | [Hxc [[<- <-] | [Hxo Hx]]]].
    + split; [done|]. exists {["a" := other; "b" := cid]}, "b".
      split; [apply lookup_insert_eq|]. apply pair_lookup. by right.
    + split; [done|]. exists {["a" := other; "b" := cid]}, "a".
      split; [apply lookup_insert_eq|]. apply pair_lookup. by left.
    + destruct (I3 _ _ Hx) as (? & m & k & Hm & Hk). split; [done|].
      exists m, k. split; [|done].
      rewrite lookup_insert_ne; [done|]. intros ->. congruence.
  - intros r m Hm. rewrite lookup_insert_Some in Hm.
    destruct Hm as [[<- <-] | [Hr' Hm]].
    + split; rewrite ?Hr.
      * intros He. assert (({["a" := other; "b" := cid]} : gmap string string)
                           !! "a" = Some other) as H by by apply pair_lookup; left.
        by rewrite He, lookup_empty in H.
      * intros k [z [[-> _] | [-> _]]%pair_lookup]; auto.
      * intros k z [[-> ->] | [-> ->]]%pair_lookup.
        -- rewrite lookup_insert_ne by done. apply lookup_insert_eq.
        -- apply lookup_insert_eq.
      * intros k k' z [[-> ->] | [-> ->]]%pair_lookup
          [[-> ?] | [-> ?]]%pair_lookup; congruence.
    + destruct (I4 _ _ Hm) as [R1 R2 R3 R4]. split; rewrite ?Hr; try done.
      intros k x Hx. specialize (R3 _ _ Hx).
      rewrite !lookup_insert_ne; [done| |]; intros ->; congruence.
Qed.

Lemma Inv_find_partner_body cid u s :
  cid ≠ "" → u ≠ "" → rooms s !! u = None →
  Inv s → Inv (find_partner_body cid u s).1.
Proof.
  intros Hc Hu Hru HI.
  pose proof (Inv_leave_if_in_room cid s HI) as HI'.
  pose proof (leave_if_in_room_room_of cid s) as Hrc.
  destruct (find_partner_body_cases cid u s)
    as [(other & Hw & H1 & H2 & ->) | [_ ->]]; cbn [fst].
  - destruct (Inv_waiting _ HI' _ Hw) as [_ Hro].
    apply Inv_pair_up; try done. by apply leave_if_in_room_rooms_None.
  - by apply Inv_become_waiting.
Qed.

(** Every handler keeps the invariant. *)
Lemma Inv_handle req s : uuid_ok req s → Inv s → Inv (handle req s).1.
Proof.
  intros Hu HI. destruct req as [u|id u|id to typ p|id u|id|id|cid|en id|]; simpl.
  - by apply Inv_ensure_queue.
  - destruct Hu as [Hu Hr]. unfold find_partner.
    destruct id as [cid|]; [|done].
    destruct (truthy cid) eqn:Hc; [|done].
    apply Inv_find_partner_body; try done. by apply truthy_inv.
  - unfold signal. destruct id as [cid|], to as [to|], typ as [typ|]; try done.
    destruct (truthy cid && truthy to && truthy typ); [|done].
    destruct (message_queues s !! to); [|done]. by apply Inv_enqueue.
  - destruct Hu as [Hu Hr]. unfold next_partner, find_partner.
    destruct id as [cid|]; [|done].
    destruct (truthy cid) eqn:Hc; [|done].
    apply Inv_find_partner_body; try done.
    + by apply truthy_inv.
    + by apply leave_rooms_None.
    + by apply Inv_leave.
  - unfold leave. destruct id as [cid|]; [|done].
    destruct (truthy cid); [|done]. simpl.
    by apply Inv_enqueue, Inv_leave.
  - unfold events. destruct id as [cid|]; [|done].
    destruct (truthy cid); [|done]. by apply Inv_ensure_queue.
  - unfold gen_next. destruct (message_queues s !! cid) as [[|e q]|]; try done.
    by apply Inv_set_message_queues.
  - unfold _test_pull. destruct en; [|done]. destruct id as [cid|]; [|done].
    destruct (truthy cid); [|done]. simpl.
    by apply Inv_set_message_queues, Inv_ensure_queue.
  - done.
Qed.

Lemma reachable_Inv s : reachable s → Inv s.
Proof.
  induction 1 as [|s req _ IH Hu]; [apply Inv_init|by apply Inv_handle].
Qed.

Lemma reachable_run reqs s :
  reachable s → uuids_ok reqs s → reachable (run reqs s).
Proof.
  revert s. induction reqs as [|req reqs IH]; intros s Hs Hu; [done|].
  destruct Hu as [Hu1 Hu2]. apply IH; [by constructor|done].
Qed.

(** Discharges [reachable] for a concrete run from [init]. *)
Ltac reach :=
  apply reachable_run;
  [ apply reachable_init
  | vm_compute;
    repeat (split || reflexivity || (let H := fresh in intros H; discriminate H)) ].

(** ** Rooms and their members *)

(** The shape of a record that satisfies [room_ok]. *)
Lemma room_shape s rid ms :
  room_ok s rid ms →
  (∃ x y, x ≠ y ∧ ms = {["a" := x; "b" := y]})
  ∨ (∃ k x, ms = {[k := x]}).
Proof.
  intros [R1 R2 R3 R4].
  destruct (ms !! "a") as [x|] eqn:Ha, (ms !! "b") as [y|] eqn:Hb.
  - left. exists x, y. split.
    + intros ->. by specialize (R4 _ _ _ Ha Hb).
    + apply map_eq. intros k. apply option_eq. intros z.
      rewrite pair_lookup. split.
      * intros Hk. destruct (R2 k) as [-> | ->]; [by exists z|left|right];
          split; congruence.
      * intros [[-> ->] | [-> ->]]; done.
  - right. exists "a", x. apply map_eq. intros k. apply option_eq. intros z.
    rewrite lookup_singleton_Some. split.
    + intros Hk. destruct (R2 k) as [-> | ->]; [by exists z| |]; split; congruence.
    + by intros [<- <-].
  - right. exists "b", y. apply map_eq. intros k. apply option_eq. intros z.
    rewrite lookup_singleton_Some. split.
    + intros Hk. destruct (R2 k) as [-> | ->]; [by exists z| |]; split; congruence.
    + by intros [<- <-].
  - destruct R1. apply map_empty. intros k. apply eq_None_not_Some. intros Hk.
    destruct (R2 k Hk) as [-> | ->]; destruct Hk; congruence.
Qed.

Lemma pair_size (x y : string) :
  size ({["a" := x; "b" := y]} : gmap string string) = 2.
Proof. rewrite map_size_insert_None by done. by rewrite map_size_singleton. Qed.

Lemma remove_member_pair_l (x y : string) :
  x ≠ y → remove_member x {["a" := x; "b" := y]} = {["b" := y]}.
Proof.
  intros H. apply map_eq. intros k. apply option_eq. intros z.
  rewrite remove_member_lookup, pair_lookup, lookup_singleton_Some.
  split.
  - intros [[[-> ->] | [-> ->]] Hz]; done.
  - intros [<- <-]. split; [by right|done].
Qed.

Lemma remove_member_pair_r (x y : string) :
  x ≠ y → remove_member y {["a" := x; "b" := y]} = {["a" := x]}.
Proof.
  intros H. apply map_eq. intros k. apply option_eq. intros z.
  rewrite remove_member_lookup, pair_lookup, lookup_singleton_Some.
  split.
  - intros [[[-> ->] | [-> ->]] Hz]; done.
  - intros [<- <-]. split; [by left|done].
Qed.

Lemma remove_member_singleton (k x : string) :
  remove_member x {[k := x]} = ∅.
Proof.
  apply remove_member_empty. intros k' z. rewrite lookup_singleton_Some.
  by intros [_ <-].
Qed.

(** After a leave the leaver is listed in no room. *)
Lemma leave_not_member cid n s r m k :
  Inv s → rooms (_leave_current_room cid n s) !! r = Some m → m !! k ≠ Some cid.
Proof.
  intros HI Hm Hk.
  pose proof (Inv_leave cid n s HI) as HI'.
  pose proof (room_indexed _ _ _ (Inv_rooms _ HI' _ _ Hm) _ _ Hk) as Hr.
  rewrite leave_room_of, lookup_delete_eq in Hr. done.
Qed.

(** The claim of C1 fails on the code: [after_a_leaves] is reachable, and in
    it the room "r2" is still recorded, with "b" as its only member, and the
    room index of "b" still names it. *)
Lemma one_member_room_counterexample :
  reachable after_a_leaves ∧
  rooms after_a_leaves !! "r2" = Some {["b" := "b"]} ∧
  size ({["b" := "b"]} : gmap string string) = 1 ∧
  room_of after_a_leaves !! "b" = Some "r2" ∧
  peer_of after_a_leaves !! "b" = None.
Proof.
  split; [unfold after_a_leaves; reach|].
  split_and!; vm_compute; reflexivity.
Qed.

(** C1, amended.  In every reachable state a room has one or two members,
    never none, and each member is indexed to it.  When a client that is in
    a room leaves it ([_leave_current_room], called by [/leave], [/next] and
    [/find]), that call removes the room index entry of the leaver, the peer
    index entries of both clients and the leaver from the room.  The room
    record is deleted only when the leaver was its last member; a room of
    two stays recorded with the other client as its only member, and the
    room index of that client still names it. *)
Theorem rooms_have_one_or_two_members (s : State) :
  reachable s →
  (∀ rid ms, rooms s !! rid = Some ms →
     (size ms = 1 ∨ size ms = 2) ∧
     ∀ k x, ms !! k = Some x → room_of s !! x = Some rid) ∧
  (∀ cid n rid ms,
     room_of s !! cid = Some rid → rooms s !! rid = Some ms →
     let s' := _leave_current_room cid n s in
     room_of s' !! cid = None ∧
     peer_of s' !! cid = None ∧
     (∀ o, peer_of s !! cid = Some o → peer_of s' !! o = None) ∧
     (∀ r m k, rooms s' !! r = Some m → m !! k ≠ Some cid) ∧
     (size ms = 1 → rooms s' !! rid = None) ∧
     (size ms = 2 →
      ∃ k o, o ≠ cid ∧ rooms s' !! rid = Some {[k := o]} ∧
             room_of s' !! o = Some rid)).
Proof.
  intros HI%reachable_Inv. split.
  - intros rid ms Hms. pose proof (Inv_rooms _ HI _ _ Hms) as Hok. split.
    + destruct (room_shape _ _ _ Hok) as [(x & y & _ & ->) | (k & x & ->)].
      * right. apply pair_size.
      * left. apply map_size_singleton.
    + apply Hok.
  - intros cid n rid ms Hrid Hms. cbn zeta.
    destruct (Inv_room_of _ HI _ _ Hrid) as (Hne & ms' & kc & Hms' & Hkc).
    assert (ms' = ms) as -> by congruence.
    pose proof (Inv_rooms _ HI _ _ Hms) as Hok.
    split_and!.
    + rewrite leave_room_of. apply lookup_delete_eq.
    + rewrite (leave_in_room _ _ _ rid) by done. simpl. unfold peer_after_leave.
      destruct (peer_of s !! cid) as [o|]; [destruct (truthy o)|];
        rewrite ?lookup_delete_None; auto.
    + intros o Ho. destruct (Inv_peer _ HI _ _ Ho) as (Ho1 & _).
      rewrite (leave_in_room _ _ _ rid) by done. simpl. unfold peer_after_leave.
      rewrite Ho, truthy_ne by done. apply lookup_delete_eq.
    + intros r m k. by apply leave_not_member.
    + intros Hsz. rewrite (leave_in_room _ _ _ rid) by done. simpl.
      unfold rooms_after_leave. rewrite Hms. cbn zeta. simpl.
      destruct (room_shape _ _ _ Hok) as [(x & y & _ & ->) | (k & x & ->)].
      { by rewrite pair_size in Hsz. }
      apply lookup_singleton_Some in Hkc as [_ <-].
      rewrite remove_member_singleton, decide_True by done.
      apply lookup_delete_eq.
    + intros Hsz. rewrite (leave_in_room _ _ _ rid) by done. simpl.
      unfold rooms_after_leave. rewrite Hms. cbn zeta. simpl.
      destruct (room_shape _ _ _ Hok) as [(x & y & Hxy & ->) | (k & x & ->)];
        [|by rewrite map_size_singleton in Hsz].
      apply pair_lookup in Hkc as [[-> ->] | [-> ->]].
      * rewrite remove_member_pair_l by done.
        rewrite decide_False
          by (intros He; apply (f_equal size) in He;
              by rewrite map_size_singleton in He).
        exists "b", y. split_and!; [done|apply lookup_insert_eq|].
        rewrite lookup_delete_ne by done.
        apply (room_indexed _ _ _ Hok "b"). apply pair_lookup. by right.
      * rewrite remove_member_pair_r by done.
        rewrite decide_False
          by (intros He; apply (f_equal size) in He;
              by rewrite map_size_singleton in He).
        exists "a", x. split_and!; [done|apply lookup_insert_eq|].
        rewrite lookup_delete_ne by done.
        apply (room_indexed _ _ _ Hok "a"). apply pair_lookup. by left.
Qed.

Lemma rooms_have_one_or_two_members_witness :
  ∃ k o, o ≠ "a" ∧
    rooms (_leave_current_room "a" true a_and_b_paired) !! "r2" = Some {[k := o]} ∧
    room_of (_leave_current_room "a" true a_and_b_paired) !! o = Some "r2".
Proof.
  destruct (rooms_have_one_or_two_members a_and_b_paired) as [_ H].
  - unfold a_and_b_paired. reach.
  - apply (H "a" true "r2" {["a" := "a"; "b" := "b"]});
      vm_compute; reflexivity.
Defined.

(** ** The peer index *)

(** C9.  In every reachable state (the initial state and every state that
    the handlers [register], [find_partner], [next_partner], [leave],
    [signal], [events] and the consumption of queues lead to) the peer index
    is symmetric, and a client that is not paired (it is in no room, or alone
    in its room) has no peer index entry; every request handled in such a
    state leads to a state where this holds again. *)
Theorem peer_index_symmetric (s : State) :
  reachable s →
  peer_symmetric s ∧
  (∀ A, is_paired s A = false → peer_of s !! A = None) ∧
  (∀ req, uuid_ok req s →
     peer_symmetric (handle req s).1 ∧
     ∀ A, is_paired (handle req s).1 A = false →
          peer_of (handle req s).1 !! A = None).
Proof.
  assert (∀ t, Inv t →
            peer_symmetric t ∧
            ∀ A, is_paired t A = false → peer_of t !! A = None) as Hgen.
  { intros t HI. split.
    - intros A B H. by destruct (Inv_peer _ HI _ _ H) as (_ & _ & ? & _).
    - intros A HA. apply eq_None_not_Some. intros [B HB].
      apply bool_decide_eq_false in HA. destruct HA.
      destruct (Inv_peer _ HI _ _ HB) as (_ & Hne & _ & rid & HrA & HrB).
      destruct (Inv_room_of _ HI _ _ HrA) as (_ & ms & kA & Hms & HkA).
      destruct (Inv_room_of _ HI _ _ HrB) as (_ & ms' & kB & Hms' & HkB).
      assert (ms' = ms) as -> by congruence.
      unfold room_members. rewrite HrA, Hms. simpl.
      destruct (room_shape _ _ _ (Inv_rooms _ HI _ _ Hms))
        as [(x & y & _ & ->) | (k & x & ->)]; [apply pair_size|].
      apply lookup_singleton_Some in HkA as [_ <-].
      apply lookup_singleton_Some in HkB as [_ <-]. done. }
  intros HI%reachable_Inv.
  destruct (Hgen s HI) as [H1 H2]. split_and!; [done..|].
  intros req Hu. apply Hgen. by apply Inv_handle.
Qed.

Lemma peer_index_symmetric_witness :
  peer_symmetric a_and_b_paired ∧
  peer_of after_a_leaves !! "b" = None.
Proof.
  split.
  - apply (peer_index_symmetric a_and_b_paired).
    unfold a_and_b_paired. reach.
  - apply (peer_index_symmetric after_a_leaves).
    + unfold after_a_leaves. reach.
    + vm_compute. reflexivity.
Defined.

(** ** Waiting again *)



(** ** Leaving *)

Lemma leave_noop cid n s :
  room_of s !! cid = None → waiting_id s ≠ Some cid →
  _leave_current_room cid n s = s.
Proof.
  intros Hr Hw. rewrite leave_not_in_room by by left.
  rewrite delete_id, decide_False by done. by destruct s.
Qed.

Lemma leave_waiting_ne cid n s :
  Inv s → waiting_id (_leave_current_room cid n s) ≠ Some cid.
Proof.
  intros HI. destruct (room_of s !! cid) as [rid|] eqn:Hrid.
  - destruct (Inv_room_of _ HI _ _ Hrid) as (Hne & _).
    rewrite (leave_in_room _ _ _ rid) by done. simpl. intros Hw.
    destruct (Inv_waiting _ HI _ Hw) as [_ ?]. congruence.
  - rewrite leave_not_in_room by by left. simpl. by case_decide.
Qed.

Lemma leave_Some cid s :
  cid ≠ "" →
  leave (Some cid) s
  = (_enqueue cid "status" left_the_chat (_leave_current_room cid true s), ok).
Proof. intros H. unfold leave. by rewrite truthy_ne. Qed.

(** The claim of C4 fails on the code.  After "a" registered and called
    [/leave] once, a second [/leave] is not a no-op: it appends a second
    [status] event ("Left the chat.") to the queue of "a". *)
Lemma leave_twice_counterexample :
  let s1 := (leave (Some "a") (register "a" init).1).1 in
  let s2 := (leave (Some "a") s1).1 in
  message_queues s1 !! "a" = Some [status_left] ∧
  message_queues s2 !! "a" = Some [status_left; status_left] ∧
  s2 ≠ s1.
Proof.
  cbn zeta. split_and!; [reflexivity..|].
  intros H. apply (f_equal (λ s, length (default [] (message_queues s !! "a")))) in H.
  vm_compute in H. discriminate H.
Qed.

(** C4, amended.  In every reachable state and for every (non-empty)
    identity: [_leave_current_room] is idempotent, a second call right after
    the first changes nothing; and a second [/leave] right after the first
    answers ok and changes neither the waiting slot, the rooms nor the two
    indexes, and enqueues no [peer-left] event: its only effect is one more
    [status] event ("Left the chat.") in the queue of the identity itself,
    when it has one. *)
Theorem leave_twice (s : State) (id : string) :
  reachable s → id ≠ "" →
  let s1 := (leave (Some id) s).1 in
  let s2 := (leave (Some id) s1).1 in
  (∀ n n', _leave_current_room id n' (_leave_current_room id n s)
           = _leave_current_room id n s) ∧
  (leave (Some id) s1).2 = ok ∧
  s2 = _enqueue id "status" left_the_chat s1 ∧
  waiting_id s2 = waiting_id s1 ∧ rooms s2 = rooms s1 ∧
  peer_of s2 = peer_of s1 ∧ room_of s2 = room_of s1 ∧
  (∀ x, x ≠ id → message_queues s2 !! x = message_queues s1 !! x) ∧
  (∀ q, message_queues s1 !! id = Some q →
        message_queues s2 !! id = Some (q ++ [status_left])) ∧
  (message_queues s1 !! id = None → s2 = s1).
Proof.
  intros HI%reachable_Inv Hid. cbn zeta.
  assert (∀ n n', _leave_current_room id n' (_leave_current_room id n s)
                  = _leave_current_room id n s) as Hidem.
  { intros n n'. apply leave_noop.
    - rewrite leave_room_of. apply lookup_delete_eq.
    - by apply leave_waiting_ne. }
  rewrite !leave_Some by done. cbn [fst snd].
  set (s1 := _enqueue id "status" left_the_chat (_leave_current_room id true s)).
  assert (_leave_current_room id true s1 = s1) as ->.
  { destruct (_enqueue_fields id "status" left_the_chat
                (_leave_current_room id true s)) as (Hw & _ & _ & Hr).
    apply leave_noop; subst s1.
    - rewrite Hr, leave_room_of. apply lookup_delete_eq.
    - rewrite Hw. by apply leave_waiting_ne. }
  destruct (_enqueue_fields id "status" left_the_chat s1) as (-> & -> & -> & ->).
  split_and!; try done.
  - intros x Hx. by apply _enqueue_lookup_ne.
  - intros q Hq. by apply _enqueue_lookup_eq.
  - intros Hn. by apply _enqueue_None.
Qed.

Lemma leave_twice_witness :
  (leave (Some "a") (leave (Some "a") a_and_b_paired).1).1
  = _enqueue "a" "status" left_the_chat (leave (Some "a") a_and_b_paired).1.
Proof.
  destruct (leave_twice a_and_b_paired "a") as (_ & _ & H & _).
  - unfold a_and_b_paired. reach.
  - discriminate.
  - exact H.
Defined.

(** ** Notifying the peer *)

(** The claim of C5 fails on the code.  [paired_with_unregistered] is
    reachable and in it "a" and "0" are paired, but "0" has no queue: when
    "a" calls [/leave], or [/next], no [peer-left] event is enqueued for "0",
    which still has no queue afterwards. *)
Lemma unregistered_peer_counterexample :
  reachable paired_with_unregistered ∧
  peer_of paired_with_unregistered !! "a" = Some "0" ∧
  peer_of paired_with_unregistered !! "0" = Some "a" ∧
  message_queues (leave (Some "a") paired_with_unregistered).1 !! "0" = None ∧
  message_queues (next_partner (Some "a") "r3" paired_with_unregistered).1 !! "0"
  = None.
Proof.
  split; [unfold paired_with_unregistered; reach|].
  split_and!; vm_compute; reflexivity.
Qed.

(** C5, amended.  When [A] and [B] are paired and [A] calls [/leave], or
    [/next] (with a fresh room identifier to draw), afterwards [B] has no
    peer index entry and no room index entry that names a room listing [A];
    and when [B] has a queue it receives exactly one [peer-left] event and
    nothing else.  When [B] has no queue the event is dropped and [B] still
    has none. *)
Theorem leaver_notifies_peer (s : State) (A B : string) :
  reachable s → peer_of s !! A = Some B →
  peer_released A B (message_queues s !! B) (leave (Some A) s).1 ∧
  (∀ u, rooms s !! u = None →
        peer_released A B (message_queues s !! B) (next_partner (Some A) u s).1).
Proof.
  intros HI%reachable_Inv HAB.
  destruct (Inv_peer _ HI _ _ HAB) as (HB & HneAB & HBA & rid & HrA & HrB).
  destruct (Inv_peer _ HI _ _ HBA) as (HA & _).
  destruct (Inv_room_of _ HI _ _ HrA) as (Hrid & ms0 & k0 & Hms0 & _).
  set (L := _leave_current_room A true s).
  pose proof (Inv_leave A true s HI) as HIL. fold L in HIL.
  assert (message_queues L !! B
          = (λ q, q ++ [mkEvent "peer-left" (JObj [])]) <$> message_queues s !! B)
    as HqL.
  { subst L. rewrite (leave_in_room _ _ _ rid) by done. simpl.
    unfold queues_after_leave. rewrite HAB, truthy_ne by done. simpl.
    destruct (message_queues s !! B) as [q|] eqn:Hq.
    - by rewrite (_enqueue_lookup_eq _ _ _ _ q).
    - by rewrite _enqueue_None. }
  assert (peer_of L !! B = None) as HpL.
  { subst L. rewrite (leave_in_room _ _ _ rid) by done. simpl.
    unfold peer_after_leave. rewrite HAB, truthy_ne by done.
    apply lookup_delete_eq. }
  assert (room_of L !! B = Some rid) as HrL.
  { subst L. rewrite leave_room_of. by rewrite lookup_delete_ne. }
  assert (room_of L !! A = None) as HrLA.
  { subst L. rewrite leave_room_of. apply lookup_delete_eq. }
  assert (∀ r m k, rooms L !! r = Some m → m !! k ≠ Some A) as HmL.
  { intros r m k. subst L. by apply leave_not_member. }
  split.
  - rewrite leave_Some by done. cbn [fst]. fold L.
    destruct (_enqueue_fields A "status" left_the_chat L) as (_ & Hro & Hp & Hr).
    split_and!.
    + by rewrite _enqueue_lookup_ne.
    + by rewrite Hp.
    + intros r m k _. rewrite Hro. apply HmL.
  - intros u Hfresh. unfold next_partner. rewrite truthy_ne by done.
    fold L. rewrite find_partner_Some by done.
    assert (leave_if_in_room A L = L) as El by by apply leave_if_in_room_absent.
    destruct (find_partner_body_cases A u L)
      as [(W & Hw & HW1 & HW2 & ->) | [_ ->]]; rewrite El in *; cbn [fst].
    + destruct (Inv_waiting _ HIL _ Hw) as [_ HrW].
      assert (W ≠ B) as HWB by (intros ->; congruence).
      destruct (pair_up_fields W A u L) as (_ & Hro & Hp & Hr).
      split_and!.
      * unfold pair_up. cbn zeta. by rewrite !_enqueue_lookup_ne.
      * rewrite Hp. by rewrite !lookup_insert_ne.
      * intros r m k. rewrite Hr, Hro, !lookup_insert_ne by done.
        intros Hr'. assert (r = rid) as -> by congruence.
        assert (u ≠ rid) by (intros ->; congruence).
        rewrite lookup_insert_ne by done. apply HmL.
    + destruct (become_waiting_fields A L) as (_ & Hro & Hp & Hr).
      split_and!.
      * unfold become_waiting. cbn zeta. by rewrite _enqueue_lookup_ne.
      * by rewrite Hp.
      * intros r m k _. rewrite Hro. apply HmL.
Qed.

Lemma leaver_notifies_peer_witness :
  peer_released "a" "b" (message_queues a_and_b_paired !! "b")
    (leave (Some "a") a_and_b_paired).1 ∧
  peer_released "a" "b" (message_queues a_and_b_paired !! "b")
    (next_partner (Some "a") "r3" a_and_b_paired).1.
Proof.
  destruct (leaver_notifies_peer a_and_b_paired "a" "b") as [H1 H2].
  - unfold a_and_b_paired. reach.
  - vm_compute. reflexivity.
  - split; [exact H1|]. apply H2. vm_compute. reflexivity.
Defined.

(** * Further properties of the code *)

(** ** Queues only grow, except by consumption *)

Lemma extends_refl s : extends s s.
Proof. intros x q H. exists []. by rewrite app_nil_r. Qed.

Lemma extends_trans s1 s2 s3 : extends s1 s2 → extends s2 s3 → extends s1 s3.
Proof.
  intros H12 H23 x q H. destruct (H12 _ _ H) as [l1 H1].
  destruct (H23 _ _ H1) as [l2 H2]. exists (l1 ++ l2). by rewrite app_assoc.
Qed.

Lemma extends_same_queues s s' :
  message_queues s' = message_queues s → extends s s'.
Proof. intros E x q H. exists []. by rewrite E, app_nil_r. Qed.

Lemma extends_enqueue cid ev d s : extends s (_enqueue cid ev d s).
Proof.
  intros x q H. destruct (decide (x = cid)) as [->|Hne].
  - exists [mkEvent ev d]. by apply _enqueue_lookup_eq.
  - exists []. by rewrite _enqueue_lookup_ne, app_nil_r.
Qed.

Lemma extends_ensure_queue cid s : extends s (_ensure_queue cid s).
Proof.
  unfold _ensure_queue. destruct (message_queues s !! cid) eqn:E.
  - apply extends_refl.
  - intros x q H. exists []. simpl. rewrite app_nil_r.
    rewrite lookup_insert_ne; [done|]. intros ->. congruence.
Qed.

Lemma extends_leave cid n s : extends s (_leave_current_room cid n s).
Proof.
  unfold _leave_current_room.
  repeat (case_match || case_decide); simplify_eq/=;
    try (by apply extends_same_queues).
  all: eapply extends_trans; [|apply extends_enqueue || by apply extends_same_queues].
  all: by apply extends_same_queues.
Qed.

Lemma extends_leave_if_in_room cid s : extends s (leave_if_in_room cid s).
Proof.
  unfold leave_if_in_room. case_decide; [apply extends_leave|apply extends_refl].
Qed.

Lemma extends_pair_up other cid rid s : extends s (pair_up other cid rid s).
Proof.
  unfold pair_up. cbn zeta.
  eapply extends_trans; [|apply extends_enqueue].
  eapply extends_trans; [|apply extends_enqueue].
  by apply extends_same_queues.
Qed.

Lemma extends_become_waiting cid s : extends s (become_waiting cid s).
Proof.
  unfold become_waiting. cbn zeta.
  eapply extends_trans; [|apply extends_enqueue]. by apply extends_same_queues.
Qed.

Lemma extends_find_partner id u s : extends s (find_partner id u s).1.
Proof.
  unfold find_partner. destruct id as [cid|]; [|apply extends_refl].
  destruct (truthy cid); [|apply extends_refl].
  eapply extends_trans; [apply (extends_leave_if_in_room cid)|].
  destruct (find_partner_body_cases cid u s)
    as [(other & _ & _ & _ & ->) | [_ ->]]; cbn [fst].
  - apply extends_pair_up.
  - apply extends_become_waiting.
Qed.

Lemma extends_signal id to typ p s : extends s (signal id to typ p s).1.
Proof.
  unfold signal. destruct id as [cid|], to as [to|], typ as [typ|];
    try apply extends_refl.
  destruct (truthy cid && truthy to && truthy typ); [|apply extends_refl].
  destruct (message_queues s !! to); [apply extends_enqueue|apply extends_refl].
Qed.

Lemma extends_next_partner id u s : extends s (next_partner id u s).1.
Proof.
  unfold next_partner. destruct id as [cid|]; [|apply extends_refl].
  destruct (truthy cid); [|apply extends_refl].
  eapply extends_trans; [apply (extends_leave cid true)|].
  apply extends_find_partner.
Qed.

Lemma extends_leave_route id s : extends s (leave id s).1.
Proof.
  unfold leave. destruct id as [cid|]; [|apply extends_refl].
  destruct (truthy cid); [|apply extends_refl]. cbn [fst].
  eapply extends_trans; [apply (extends_leave cid true)|apply extends_enqueue].
Qed.

Lemma extends_events id s : extends s (events id s).1.
Proof.
  unfold events. destruct id as [cid|]; [|apply extends_refl].
  destruct (truthy cid); [apply extends_ensure_queue|apply extends_refl].
Qed.

(** A request that does not consume the queue of [x] extends it. *)
Lemma handle_extends (req : Request) (s : State) (x : string)
    (q : list Event) :
  message_queues s !! x = Some q → consumes req x = false →
  ∃ l, message_queues (handle req s).1 !! x = Some (q ++ l).
Proof.
  intros Hq Hc.
  destruct req as [u|id u|id to typ p|id u|id|id|cid|en id|]; simpl.
  - by apply extends_ensure_queue.
  - by apply extends_find_partner.
  - by apply extends_signal.
  - by apply extends_next_partner.
  - by apply extends_leave_route.
  - by apply extends_events.
  - simpl in Hc. apply bool_decide_eq_false in Hc.
    exists []. rewrite app_nil_r. unfold gen_next.
    destruct (message_queues s !! cid) as [[|e q']|]; try done.
    simpl. by rewrite lookup_insert_ne.
  - exists []. rewrite app_nil_r. unfold _test_pull.
    destruct en; [|done]. destruct id as [cid|]; [|done].
    simpl in Hc. apply bool_decide_eq_false in Hc.
    destruct (truthy cid); [|done]. cbn [fst]. simpl.
    rewrite lookup_insert_ne by done.
    destruct (extends_ensure_queue cid s _ _ Hq) as [l Hl].
    unfold _ensure_queue in *. destruct (message_queues s !! cid) eqn:E; [done|].
    simpl. rewrite lookup_insert_ne by done. done.
  - exists []. by rewrite app_nil_r.
Qed.

(** X1.  The queues are append-only for everything but their consumers: a
    request that is neither a round of the stream of [x] nor a call of the
    test route for [x] leaves the queue of [x] in place, with what was
    pending still at the front, in order, and new items only at the end. *)
Theorem queue_append_only (req : Request) (s : State) (x : string)
    (q : list Event) :
  message_queues s !! x = Some q → consumes req x = false →
  ∃ l, message_queues (handle req s).1 !! x = Some (q ++ l).
Proof. apply handle_extends. Qed.

Lemma queue_append_only_witness :
  ∃ l, message_queues (handle (POST_leave (Some "a")) a_and_b_paired).1 !! "b"
       = Some ([matched_event "r2" "callee" "a"] ++ l).
Proof.
  apply (queue_append_only (POST_leave (Some "a")) a_and_b_paired "b"
           [matched_event "r2" "callee" "a"]); vm_compute; reflexivity.
Defined.

(** ** Queues are never removed *)

Lemma handle_keeps_queue req s x :
  is_Some (message_queues s !! x) → is_Some (message_queues (handle req s).1 !! x).
Proof.
  intros [q Hq]. destruct (consumes req x) eqn:Hc.
  - destruct req as [u|id u|id to typ p|id u|id|id|cid|en id|]; try done; simpl.
    + unfold gen_next. destruct (message_queues s !! cid) as [[|e q']|] eqn:E;
        simpl; rewrite ?Hq; try done.
      rewrite lookup_insert_is_Some. destruct (decide (cid = x)); auto.
    + unfold _test_pull. destruct en; simpl; rewrite ?Hq; [|done].
      destruct id as [cid|]; simpl; rewrite ?Hq; [|done].
      destruct (truthy cid); simpl; rewrite ?Hq; [|done].
      rewrite lookup_insert_is_Some. destruct (decide (cid = x)); [auto|].
      right. split; [done|].
      destruct (extends_ensure_queue cid s _ _ Hq) as [l ->]. done.
  - destruct (handle_extends req s x q Hq Hc) as [l ->]. done.
Qed.

Lemma run_keeps_queue reqs s x :
  is_Some (message_queues s !! x) → is_Some (message_queues (run reqs s) !! x).
Proof.
  revert s. induction reqs as [|req reqs IH]; intros s H; [done|].
  simpl. apply IH. by apply handle_keeps_queue.
Qed.

(** X2.  No request ever removes a queue, so a client that registered can be
    signalled for ever after: whatever requests follow the registration of
    [x] (its own [/leave] included), a well-formed [/signal] addressed to [x]
    answers ok and never "peer not found". *)
Theorem registered_client_stays_reachable (s : State) (reqs : list Request)
    (x cid typ : string) (payload : json) :
  x ≠ "" → cid ≠ "" → typ ≠ "" →
  is_Some (message_queues (run reqs (register x s).1) !! x) ∧
  (signal (Some cid) (Some x) (Some typ) payload (run reqs (register x s).1)).2
  = ok.
Proof.
  intros Hx Hc Ht.
  assert (is_Some (message_queues (run reqs (register x s).1) !! x)) as Hq.
  { apply run_keeps_queue. simpl. unfold _ensure_queue.
    destruct (message_queues s !! x) eqn:E; [by rewrite E|].
    simpl. by rewrite lookup_insert_eq. }
  split; [done|]. destruct Hq as [q Hq].
  unfold signal. rewrite !truthy_ne by done. cbn [andb]. by rewrite Hq.
Qed.

Lemma registered_client_stays_reachable_witness :
  (signal (Some "b") (Some "a") (Some "offer") JNull
     (run [POST_register "b"; POST_find (Some "a") "r1";
           POST_find (Some "b") "r2"; POST_leave (Some "a")]
        (register "a" init).1)).2 = ok.
Proof.
  apply (registered_client_stays_reachable init
           [POST_register "b"; POST_find (Some "a") "r1";
            POST_find (Some "b") "r2"; POST_leave (Some "a")]
           "a" "b" "offer" JNull); discriminate.
Defined.

(** ** Validation of the requests *)

(** X3.  [/signal] checks its fields before it looks the recipient up: when
    one of [id], [to], [type] is absent or empty the answer is "missing
    fields" (400), also when the recipient does not exist, and nothing
    changes.  Whatever the request, [/signal] never touches the waiting
    slot, the rooms or the indexes, nor any queue but the recipient's. *)
Theorem signal_validates_first (id to typ : option string) (payload : json)
    (s : State) :
  (present id && present to && present typ = false →
   signal id to typ payload s = (s, missing_fields)) ∧
  waiting_id (signal id to typ payload s).1 = waiting_id s ∧
  rooms (signal id to typ payload s).1 = rooms s ∧
  peer_of (signal id to typ payload s).1 = peer_of s ∧
  room_of (signal id to typ payload s).1 = room_of s ∧
  (∀ x, to ≠ Some x →
        message_queues (signal id to typ payload s).1 !! x
        = message_queues s !! x).
Proof.
  unfold signal, present.
  destruct id as [cid|], to as [to|], typ as [typ|]; simpl;
    rewrite ?andb_false_r; try done.
  destruct (truthy cid && truthy to && truthy typ) eqn:E; [|done].
  destruct (message_queues s !! to) eqn:Eq; [|done]. cbn [fst].
  destruct (_enqueue_fields to "signal" (signal_data cid typ payload) s)
    as (-> & -> & -> & ->).
  split_and!; try done.
  intros x Hx. apply _enqueue_lookup_ne. congruence.
Qed.

Lemma signal_validates_first_witness :
  signal (Some "a") (Some "nobody") (Some "") JNull init = (init, missing_fields).
Proof.
  apply (signal_validates_first (Some "a") (Some "nobody") (Some "") JNull init).
  reflexivity.
Defined.

(** X4.  Every route that takes an id rejects an absent or empty one with
    "missing id" (400) before it changes anything: [/find], [/next],
    [/leave], [/events] and the enabled test route.  The disabled test route
    answers "disabled" (403) whatever the id, valid or not. *)
Theorem missing_id_rejected (id : option string) (u : string) (s : State) :
  present id = false →
  find_partner id u s = (s, missing_id) ∧
  next_partner id u s = (s, missing_id) ∧
  leave id s = (s, missing_id) ∧
  events id s = (s, missing_id) ∧
  _test_pull true id s = (s, missing_id) ∧
  ∀ id', _test_pull false id' s
         = (s, jsonify (JObj [("error", JStr "disabled")]) 403).
Proof.
  unfold present, find_partner, next_partner, leave, events, _test_pull.
  destruct id as [cid|]; [intros ->|]; done.
Qed.

Lemma missing_id_rejected_witness :
  next_partner (Some "") "r" a_and_b_paired = (a_and_b_paired, missing_id).
Proof.
  apply (missing_id_rejected (Some "") "r" a_and_b_paired). reflexivity.
Defined.

(** ** Consumption of a queue *)

Lemma gen_next_cons cid s item q :
  message_queues s !! cid = Some (item :: q) →
  gen_next cid s
  = (set_message_queues (<[cid := q]> (message_queues s)) s, Some item).
Proof. intros H. unfold gen_next. by rewrite H. Qed.

Lemma gen_next_empty cid s :
  message_queues s !! cid = Some [] → gen_next cid s = (s, None).
Proof. intros H. unfold gen_next. by rewrite H. Qed.

Lemma gen_rounds_empty n cid s :
  message_queues s !! cid = Some [] → gen_rounds n cid s = (s, []).
Proof.
  intros H. induction n as [|n IH]; [done|].
  cbn [gen_rounds]. by rewrite gen_next_empty.
Qed.

(** X5.  The stream of a client delivers what is pending in its queue in
    the order in which it was enqueued, each item once: [n] rounds of the
    loop of [gen], for [n] at least the number of pending items, send
    exactly the pending items in order (the remaining rounds time out and
    send keep-alives only) and leave the queue empty; the rounds change
    nothing else in the state. *)
Theorem stream_delivers_in_order (n : nat) (cid : string) (s : State)
    (q : list Event) :
  message_queues s !! cid = Some q → (length q ≤ n)%nat →
  gen_rounds n cid s
  = (set_message_queues (<[cid := []]> (message_queues s)) s, q).
Proof.
  revert s q. induction n as [|n IH]; intros s q Hq Hn.
  - destruct q; [|simpl in Hn; lia]. cbn [gen_rounds]. f_equal.
    apply State_eq; simpl; try done. by rewrite insert_id.
  - destruct q as [|item q].
    + rewrite gen_rounds_empty by done. f_equal.
      apply State_eq; simpl; try done. by rewrite insert_id.
    + cbn [gen_rounds]. rewrite (gen_next_cons _ _ item q) by done.
      rewrite (IH _ q); [|simpl; apply lookup_insert_eq|simpl in Hn; lia].
      f_equal. apply State_eq; simpl; try done. by rewrite insert_insert_eq.
Qed.

Lemma stream_delivers_in_order_witness :
  gen_rounds 5 "b" after_a_leaves
  = (set_message_queues (<["b" := []]> (message_queues after_a_leaves))
       after_a_leaves,
     [matched_event "r2" "callee" "a"; peer_left]).
Proof.
  apply (stream_delivers_in_order 5 "b" after_a_leaves
           [matched_event "r2" "callee" "a"; peer_left]).
  - vm_compute. reflexivity.
  - simpl. lia.
Defined.

Lemma items_json_length l : length (items_json l) = length l.
Proof. induction l as [|e l IH]; simpl; congruence. Qed.

Lemma items_json_lookup l i e :
  l !! i = Some e →
  items_json l !! i = Some (JObj [("event", JStr (event e)); ("data", data e)]).
Proof.
  revert i. induction l as [|e' l IH]; intros [|i] H; simplify_eq/=; auto.
Qed.

Lemma _test_pull_Some cid s :
  cid ≠ "" →
  _test_pull true (Some cid) s
  = (set_message_queues (<[cid := []]> (message_queues s)) s,
     jsonify (JArr (items_json (default [] (message_queues s !! cid)))) 200).
Proof.
  intros H. unfold _test_pull. rewrite truthy_ne by done.
  unfold _ensure_queue. destruct (message_queues s !! cid) as [q|] eqn:E.
  - by rewrite E.
  - simpl. rewrite lookup_insert_eq, insert_insert_eq. done.
Qed.

(** X6.  The enabled test route hands over, for any non-empty id, all the
    pending items of its queue as one JSON list, one object [{event, data}]
    per item in queue order, and leaves the queue empty (an id without a
    queue gets an empty one and an empty list); nothing else changes.  A
    second call right after it returns the empty list and changes
    nothing. *)
Theorem test_pull_drains (cid : string) (s : State) :
  cid ≠ "" →
  let q := default [] (message_queues s !! cid) in
  let s1 := (_test_pull true (Some cid) s).1 in
  _test_pull true (Some cid) s
  = (set_message_queues (<[cid := []]> (message_queues s)) s,
     jsonify (JArr (items_json q)) 200) ∧
  length (items_json q) = length q ∧
  (∀ i e, q !! i = Some e →
          items_json q !! i
          = Some (JObj [("event", JStr (event e)); ("data", data e)])) ∧
  _test_pull true (Some cid) s1 = (s1, jsonify (JArr []) 200).
Proof.
  intros H. cbn zeta. rewrite !_test_pull_Some by done. cbn [fst].
  split_and!; [done|apply items_json_length|apply items_json_lookup|].
  simpl. rewrite lookup_insert_eq, insert_insert_eq. done.
Qed.

Lemma test_pull_drains_witness :
  _test_pull true (Some "b") after_a_leaves
  = (set_message_queues (<["b" := []]> (message_queues after_a_leaves))
       after_a_leaves,
     jsonify (JArr (items_json (default [] (message_queues after_a_leaves !! "b"))))
       200).
Proof. apply (test_pull_drains "b" after_a_leaves). discriminate. Defined.

(** ** Exact outcomes of [find_partner] *)

Lemma test_register_eq u s :
  test_register u s = (_ensure_queue u s, Some u).
Proof. reflexivity. Qed.

Lemma test_pull_eq env cid s :
  tests_enabled env = true → cid ≠ "" →
  test_pull env cid s
  = (set_message_queues (<[cid := []]> (message_queues s)) s,
     Some (items_json (default [] (message_queues s !! cid)))).
Proof.
  intros He Hc. unfold test_pull. rewrite He.
  by rewrite _test_pull_Some.
Qed.

Lemma any_event_items name l :
  any_event name (items_json l)
  = existsb (λ e, bool_decide (event e = name)) l.
Proof.
  unfold any_event. induction l as [|e l IH]; [done|].
  simpl. f_equal. apply IH.
Qed.

(** The state of the unit tests after the two registrations and the two
    [/find] calls. *)
Lemma tests_paired_state ua ub r1 r2 :
  ua ≠ "" → ub ≠ "" → ua ≠ ub →
  let s0 := _ensure_queue ub (_ensure_queue ua init) in
  let s2 := (find_partner (Some ub) r2 (find_partner (Some ua) r1 s0).1).1 in
  message_queues s2
  = <[ub := [matched_event r2 "callee" ua]]>
      (<[ua := [status_searching; matched_event r2 "caller" ub]]>
         (<[ub := []]> (<[ua := []]> ∅))) ∧
  waiting_id s2 = None ∧
  peer_of s2 !! ua = Some ub ∧
  room_of s2 !! ua = Some r2.
Proof.
  intros Ha Hb Hab. cbn zeta.
  assert (_ensure_queue ub (_ensure_queue ua init)
          = mkState None ∅ ∅ ∅ (<[ub := []]> (<[ua := []]> ∅))) as ->.
  { unfold _ensure_queue at 2. simpl. rewrite lookup_empty.
    unfold _ensure_queue. simpl.
    rewrite lookup_insert_ne by done. by rewrite lookup_empty. }
  set (s0 := mkState _ _ _ _ _).
  rewrite !find_partner_Some by done.
  rewrite (find_partner_body_waiting ua r1 s0);
    rewrite leave_if_in_room_absent by done; [|by intros other].
  cbn [fst].
  set (s1 := become_waiting ua s0).
  destruct (become_waiting_fields ua s0) as (Hw1 & _ & _ & Hr1). fold s1 in Hw1, Hr1.
  assert (message_queues s1 = <[ua := [status_searching]]> (message_queues s0)) as Hq1.
  { subst s1. rewrite (become_waiting_queues _ _ []); [done|].
    simpl. rewrite lookup_insert_ne by done. apply lookup_insert_eq. }
  assert (leave_if_in_room ub s1 = s1) as El.
  { apply leave_if_in_room_absent. by rewrite Hr1. }
  rewrite (find_partner_body_matched ub r2 s1 ua); rewrite ?El; try done.
  cbn [fst].
  destruct (pair_up_fields ua ub r2 s1) as (-> & _ & -> & ->).
  rewrite (pair_up_queues ua ub r2 s1 [status_searching] []); try done.
  - rewrite Hq1. simpl. rewrite insert_insert_eq.
    split_and!; try done.
    + rewrite lookup_insert_ne by done. apply lookup_insert_eq.
    + rewrite lookup_insert_ne by done. apply lookup_insert_eq.
  - rewrite Hq1. apply lookup_insert_eq.
  - rewrite Hq1. rewrite lookup_insert_ne by done. simpl. apply lookup_insert_eq.
Qed.

(** ** The unit tests of app.py *)

(** X7.  [test_match_two_clients_and_signal] passes whenever the test
    routes are enabled and the two registrations draw ids that are not
    empty and differ: both clients find a [matched] event, and the offer
    relayed from the first to the second arrives as a [signal] event of
    type "offer". *)
Theorem test_match_two_clients_and_signal_passes (env : gmap string string)
    (ua ub r1 r2 : string) :
  tests_enabled env = true → ua ≠ "" → ub ≠ "" → ua ≠ ub →
  test_match_two_clients_and_signal env ua ub r1 r2 = true.
Proof.
  intros He Ha Hb Hab. unfold test_match_two_clients_and_signal.
  rewrite !test_register_eq.
  destruct (tests_paired_state ua ub r1 r2 Ha Hb Hab) as (Hq & _).
  cbn zeta in Hq.
  set (s2 := (find_partner (Some ub) r2 _).1) in *.
  rewrite (test_pull_eq env ua s2) by done.
  set (s3 := set_message_queues _ s2).
  rewrite (test_pull_eq env ub s3) by done.
  set (s4 := set_message_queues _ s3).
  assert (message_queues s2 !! ua
          = Some [status_searching; matched_event r2 "caller" ub]) as ->.
  { rewrite Hq. rewrite lookup_insert_ne by done. apply lookup_insert_eq. }
  assert (message_queues s3 !! ub = Some [matched_event r2 "callee" ua]) as ->.
  { subst s3. simpl. rewrite lookup_insert_ne by done. rewrite Hq.
    apply lookup_insert_eq. }
  rewrite !any_event_items.
  apply andb_true_intro. split;
    [apply andb_true_intro; split; reflexivity|].
  assert (message_queues s4 !! ub = Some []) as Hq4.
  { subst s4. simpl. apply lookup_insert_eq. }
  assert ((signal (Some ua) (Some ub) (Some "offer") (JObj [("sdp", JStr "x")]) s4).1
          = _enqueue ub "signal"
              (signal_data ua "offer" (JObj [("sdp", JStr "x")])) s4) as ->.
  { unfold signal. rewrite !truthy_ne by done. cbn [andb]. by rewrite Hq4. }
  rewrite (test_pull_eq env ub) by done.
  rewrite (_enqueue_lookup_eq _ _ _ _ [] Hq4). reflexivity.
Qed.

Lemma test_match_two_clients_and_signal_passes_witness :
  test_match_two_clients_and_signal ∅ "a" "b" "r1" "r2" = true.
Proof.
  apply test_match_two_clients_and_signal_passes;
    (reflexivity || discriminate).
Defined.

(** X8.  [test_leave_notifies_peer] passes whenever the test routes are
    enabled, the two registrations draw ids that are not empty and differ,
    and the room id drawn for the pairing is not empty: after the first
    client left, the second finds a [peer-left] event. *)
Theorem test_leave_notifies_peer_passes (env : gmap string string)
    (ua ub r1 r2 : string) :
  tests_enabled env = true → ua ≠ "" → ub ≠ "" → ua ≠ ub → r2 ≠ "" →
  test_leave_notifies_peer env ua ub r1 r2 = true.
Proof.
  intros He Ha Hb Hab Hr. unfold test_leave_notifies_peer.
  rewrite !test_register_eq.
  destruct (tests_paired_state ua ub r1 r2 Ha Hb Hab) as (Hq & _ & Hp & Hro).
  cbn zeta in Hq, Hp, Hro.
  set (s2 := (find_partner (Some ub) r2 _).1) in *.
  rewrite (test_pull_eq env ua s2) by done.
  set (s3 := set_message_queues _ s2).
  rewrite (test_pull_eq env ub s3) by done.
  set (s4 := set_message_queues _ s3).
  assert (message_queues s4 !! ub = Some []) as Hq4.
  { subst s4. simpl. apply lookup_insert_eq. }
  rewrite leave_Some by done. cbn [fst].
  rewrite (test_pull_eq env ub) by done.
  rewrite _enqueue_lookup_ne by done.
  rewrite (leave_in_room ua true s4 r2) by done. simpl.
  unfold queues_after_leave. simpl. rewrite Hp, truthy_ne by done. simpl.
  rewrite (_enqueue_lookup_eq _ _ _ _ [] Hq4). reflexivity.
Qed.

Lemma test_leave_notifies_peer_passes_witness :
  test_leave_notifies_peer ∅ "a" "b" "r1" "r2" = true.
Proof.
  apply test_leave_notifies_peer_passes; (reflexivity || discriminate).
Defined.

(** X9.  [test_waiting_status] passes whenever the test routes are enabled
    and the registration draws an id that is not empty: the client that
    asked for a partner alone finds a [status] event. *)
Theorem test_waiting_status_passes (env : gmap string string) (ua r1 : string) :
  tests_enabled env = true → ua ≠ "" →
  test_waiting_status env ua r1 = true.
Proof.
  intros He Ha. unfold test_waiting_status.
  rewrite test_register_eq.
  assert (_ensure_queue ua init = mkState None ∅ ∅ ∅ {[ua := []]}) as ->.
  { unfold _ensure_queue. simpl. rewrite lookup_empty. simpl.
    by rewrite insert_empty. }
  set (s0 := mkState _ _ _ _ _).
  rewrite find_partner_Some by done.
  rewrite (find_partner_body_waiting ua r1 s0);
    rewrite leave_if_in_room_absent by done; [|by intros other].
  cbn [fst]. rewrite (test_pull_eq env ua) by done.
  rewrite (become_waiting_queues ua s0 []) by apply lookup_singleton_eq.
  rewrite lookup_insert_eq. reflexivity.
Qed.

Lemma test_waiting_status_passes_witness :
  test_waiting_status ∅ "a" "r1" = true.
Proof. apply test_waiting_status_passes; (reflexivity || discriminate). Defined.

(** ** Consequences of the invariant *)

Lemma Inv_no_peer_without_room s x :
  Inv s → room_of s !! x = None → peer_of s !! x = None.
Proof.
  intros HI Hr. apply eq_None_not_Some. intros [y Hy].
  destruct (Inv_peer _ HI _ _ Hy) as (_ & _ & _ & rid & ? & _). congruence.
Qed.

Lemma Inv_not_peer_without_room s x y :
  Inv s → room_of s !! x = None → peer_of s !! y ≠ Some x.
Proof.
  intros HI Hr Hy.
  destruct (Inv_peer _ HI _ _ Hy) as (_ & _ & _ & rid & _ & ?). congruence.
Qed.

Lemma Inv_not_member_without_room s x rid ms k :
  Inv s → room_of s !! x = None → rooms s !! rid = Some ms → ms !! k ≠ Some x.
Proof.
  intros HI Hr Hms Hk.
  pose proof (room_indexed _ _ _ (Inv_rooms _ HI _ _ Hms) _ _ Hk). congruence.
Qed.

(** X10.  In every reachable state the client in the waiting slot is known
    nowhere else: its id is not empty, it is indexed to no room, it has no
    peer, it is the peer of nobody and no room lists it. *)
Theorem waiting_client_is_unpaired (s : State) (w : string) :
  reachable s → waiting_id s = Some w →
  w ≠ "" ∧ room_of s !! w = None ∧ peer_of s !! w = None ∧
  (∀ x, peer_of s !! x ≠ Some w) ∧
  (∀ rid ms k, rooms s !! rid = Some ms → ms !! k ≠ Some w).
Proof.
  intros HI%reachable_Inv Hw. destruct (Inv_waiting _ HI _ Hw) as [Hne Hr].
  split_and!; try done.
  - by apply Inv_no_peer_without_room.
  - intros x. by apply Inv_not_peer_without_room.
  - intros rid ms k. by apply Inv_not_member_without_room.
Qed.

Lemma waiting_client_is_unpaired_witness :
  peer_of (run [POST_register "a"; POST_find (Some "a") "r1"] init) !! "a" = None.
Proof.
  apply (waiting_client_is_unpaired
           (run [POST_register "a"; POST_find (Some "a") "r1"] init) "a").
  - reach.
  - reflexivity.
Defined.

(** X11.  In every reachable state the room index and the member lists of
    the rooms say the same: a client is indexed to a room exactly when that
    room exists and lists it.  Hence a client is listed in at most one
    room. *)
Theorem room_index_matches_members (s : State) :
  reachable s →
  (∀ x rid, room_of s !! x = Some rid ↔
            ∃ ms k, rooms s !! rid = Some ms ∧ ms !! k = Some x) ∧
  (∀ x r1 r2 m1 m2 k1 k2,
     rooms s !! r1 = Some m1 → m1 !! k1 = Some x →
     rooms s !! r2 = Some m2 → m2 !! k2 = Some x → r1 = r2 ∧ k1 = k2).
Proof.
  intros HI%reachable_Inv. split.
  - intros x rid. split.
    + intros H. by destruct (Inv_room_of _ HI _ _ H) as [_ ?].
    + intros (ms & k & Hms & Hk).
      by apply (room_indexed _ _ _ (Inv_rooms _ HI _ _ Hms) k).
  - intros x r1 r2 m1 m2 k1 k2 H1 Hk1 H2 Hk2.
    pose proof (room_indexed _ _ _ (Inv_rooms _ HI _ _ H1) _ _ Hk1) as E1.
    pose proof (room_indexed _ _ _ (Inv_rooms _ HI _ _ H2) _ _ Hk2) as E2.
    assert (r1 = r2) as <- by congruence. split; [done|].
    assert (m2 = m1) as -> by congruence.
    by apply (room_once _ _ _ (Inv_rooms _ HI _ _ H1) _ _ x).
Qed.

Lemma room_index_matches_members_witness :
  room_of after_a_leaves !! "b" = Some "r2".
Proof.
  destruct (room_index_matches_members after_a_leaves) as [H _].
  - unfold after_a_leaves. reach.
  - apply H. exists {["b" := "b"]}, "b". split; vm_compute; reflexivity.
Defined.

Lemma Inv_peers_room s A B :
  Inv s → peer_of s !! A = Some B →
  A ≠ "" ∧ B ≠ "" ∧ A ≠ B ∧
  ∃ rid, rid ≠ "" ∧ room_of s !! A = Some rid ∧ room_of s !! B = Some rid ∧
         (rooms s !! rid = Some {["a" := A; "b" := B]}
          ∨ rooms s !! rid = Some {["a" := B; "b" := A]}).
Proof.
  intros HI HAB.
  destruct (Inv_peer _ HI _ _ HAB) as (HB & Hne & HBA & rid & HrA & HrB).
  destruct (Inv_peer _ HI _ _ HBA) as (HA & _).
  destruct (Inv_room_of _ HI _ _ HrA) as (Hrid & ms & kA & Hms & HkA).
  destruct (Inv_room_of _ HI _ _ HrB) as (_ & ms' & kB & Hms' & HkB).
  assert (ms' = ms) as -> by congruence.
  split_and!; try done. exists rid. split_and!; try done.
  destruct (room_shape _ _ _ (Inv_rooms _ HI _ _ Hms))
    as [(x & y & Hxy & ->) | (k & x & ->)].
  - apply pair_lookup in HkA as [[-> ->] | [-> ->]];
      apply pair_lookup in HkB as [[? ->] | [? ->]]; try done; auto.
  - apply lookup_singleton_Some in HkA as [_ <-].
    apply lookup_singleton_Some in HkB as [_ <-]. done.
Qed.

(** X12.  In every reachable state two clients that are peers are two
    different, non-empty ids indexed to one and the same room, and the
    record of that room holds exactly the two of them under the keys "a"
    and "b". *)
Theorem peers_share_a_room (s : State) (A B : string) :
  reachable s → peer_of s !! A = Some B →
  A ≠ "" ∧ B ≠ "" ∧ A ≠ B ∧
  ∃ rid, rid ≠ "" ∧ room_of s !! A = Some rid ∧ room_of s !! B = Some rid ∧
         (rooms s !! rid = Some {["a" := A; "b" := B]}
          ∨ rooms s !! rid = Some {["a" := B; "b" := A]}).
Proof. intros HI%reachable_Inv. by apply Inv_peers_room. Qed.

Lemma peers_share_a_room_witness :
  ∃ rid, rid ≠ "" ∧ room_of a_and_b_paired !! "b" = Some rid ∧
         room_of a_and_b_paired !! "a" = Some rid ∧
         (rooms a_and_b_paired !! rid = Some {["a" := "b"; "b" := "a"]}
          ∨ rooms a_and_b_paired !! rid = Some {["a" := "a"; "b" := "b"]}).
Proof.
  apply (peers_share_a_room a_and_b_paired "b" "a").
  - unfold a_and_b_paired. reach.
  - vm_compute. reflexivity.
Defined.

(** ** The waiting slot decides the outcome of [/find] *)

(** X13.  In any state, the outcome of [/find] for a non-empty id depends on
    the waiting slot alone.  If the slot holds another, non-empty id [w], the
    answer is [matched] with the room id drawn, the slot is emptied, the two
    become peers of each other and are indexed to the new room, recorded as
    [{"a": w, "b": id}] (also when [id] was in a room before).  If the slot
    is empty or holds [id] itself, the answer is [waiting] and [id] ends up
    in the slot, indexed to no room. *)
Theorem find_partner_outcome (s : State) (id u : string) :
  id ≠ "" →
  let s' := (find_partner (Some id) u s).1 in
  let r := (find_partner (Some id) u s).2 in
  (∀ w, waiting_id s = Some w → w ≠ "" → w ≠ id →
        r = matched u ∧ waiting_id s' = None ∧
        peer_of s' !! id = Some w ∧ peer_of s' !! w = Some id ∧
        room_of s' !! id = Some u ∧ room_of s' !! w = Some u ∧
        rooms s' !! u = Some {["a" := w; "b" := id]}) ∧
  (waiting_id s = None ∨ waiting_id s = Some id →
   r = waiting ∧ waiting_id s' = Some id ∧ room_of s' !! id = None).
Proof.
  intros Hid. cbn zeta. rewrite find_partner_Some by done. split.
  - intros w Hw Hw1 Hw2.
    rewrite (find_partner_body_matched id u s w);
      [|by apply leave_if_in_room_waiting|done..].
    cbn [fst snd].
    destruct (pair_up_fields w id u (leave_if_in_room id s))
      as (-> & -> & -> & ->).
    split_and!; try done; rewrite ?lookup_insert_eq; try done.
    + rewrite lookup_insert_ne by done. apply lookup_insert_eq.
    + rewrite lookup_insert_ne by done. apply lookup_insert_eq.
  - intros Hw. rewrite find_partner_body_waiting.
    + cbn [fst snd].
      destruct (become_waiting_fields id (leave_if_in_room id s))
        as (-> & _ & _ & ->).
      split_and!; try done. apply leave_if_in_room_room_of.
    + intros other Ho%leave_if_in_room_waiting_inv.
      destruct Hw as [Hw|Hw]; [congruence|]. right. congruence.
Qed.

Lemma find_partner_outcome_witness :
  (find_partner (Some "c") "r3" after_a_leaves).2 = waiting ∧
  waiting_id (find_partner (Some "c") "r3" after_a_leaves).1 = Some "c" ∧
  room_of (find_partner (Some "c") "r3" after_a_leaves).1 !! "c" = None.
Proof.
  destruct (find_partner_outcome after_a_leaves "c" "r3") as [_ H].
  - discriminate.
  - apply H. left. reflexivity.
Defined.

(** ** Finding a new partner from within a room *)

(** X14.  A client that asks for a new partner with [/find] while it is
    paired leaves its peer without a word: in a reachable state where [B] is
    the peer of [A], after [/find] by [A] the queue of [B] is exactly what it
    was (no [peer-left] event), while [B] has lost its peer index entry and
    is still indexed to the same room. *)
Theorem find_partner_leaves_peer_silently (s : State) (A B u : string) :
  reachable s → peer_of s !! A = Some B →
  let s' := (find_partner (Some A) u s).1 in
  message_queues s' !! B = message_queues s !! B ∧
  peer_of s' !! B = None ∧
  room_of s' !! B = room_of s !! B.
Proof.
  intros HI%reachable_Inv HAB. cbn zeta.
  destruct (Inv_peers_room _ _ _ HI HAB)
    as (HA & HB & Hne & rid & Hrid & HrA & HrB & _).
  rewrite find_partner_Some by done.
  remember (leave_if_in_room A s) as L eqn:HL.
  assert (L = _leave_current_room A false s) as El.
  { subst L. unfold leave_if_in_room. rewrite decide_True; [done|].
    by rewrite HrA. }
  assert (Inv L) as HIL by (rewrite El; by apply Inv_leave).
  assert (message_queues L = message_queues s) as HqL.
  { rewrite El, (leave_in_room _ _ _ rid) by done. simpl.
    unfold queues_after_leave. by rewrite HAB. }
  assert (peer_of L !! B = None) as HpL.
  { rewrite El, (leave_in_room _ _ _ rid) by done. simpl.
    unfold peer_after_leave. rewrite HAB, truthy_ne by done.
    apply lookup_delete_eq. }
  assert (room_of L !! B = Some rid) as HrL.
  { rewrite El, leave_room_of. by rewrite lookup_delete_ne. }
  rewrite HrB.
  destruct (find_partner_body_cases A u s)
    as [(W & Hw & HW1 & HW2 & ->) | [_ ->]]; rewrite <- ?HL in *; cbn [fst].
  - destruct (Inv_waiting _ HIL _ Hw) as [_ HrW].
    assert (W ≠ B) as HWB by (intros ->; congruence).
    destruct (pair_up_fields W A u L) as (_ & _ & -> & ->).
    split_and!.
    + unfold pair_up. cbn zeta. rewrite !_enqueue_lookup_ne by done.
      simpl. by rewrite HqL.
    + by rewrite !lookup_insert_ne.
    + by rewrite !lookup_insert_ne.
  - destruct (become_waiting_fields A L) as (_ & _ & -> & ->).
    split_and!; try done.
    unfold become_waiting. cbn zeta. rewrite _enqueue_lookup_ne by done.
    simpl. by rewrite HqL.
Qed.

Lemma find_partner_leaves_peer_silently_witness :
  message_queues (find_partner (Some "a") "r3" a_and_b_paired).1 !! "b"
  = message_queues a_and_b_paired !! "b" ∧
  peer_of (find_partner (Some "a") "r3" a_and_b_paired).1 !! "b" = None ∧
  room_of (find_partner (Some "a") "r3" a_and_b_paired).1 !! "b"
  = room_of a_and_b_paired !! "b".
Proof.
  apply (find_partner_leaves_peer_silently a_and_b_paired "a" "b" "r3").
  - unfold a_and_b_paired. reach.
  - vm_compute. reflexivity.
Defined.

(** ** [/next] outside a room *)

(** X15.  For a client that is indexed to no room, waiting or idle, [/next]
    does exactly what [/find] does: same state, same response, in any
    state. *)
Theorem next_partner_outside_room (s : State) (id u : string) :
  id ≠ "" → room_of s !! id = None →
  next_partner (Some id) u s = find_partner (Some id) u s.
Proof.
  intros Hid Hr. unfold next_partner. rewrite truthy_ne by done.
  rewrite leave_not_in_room by by left. rewrite delete_id by done.
  destruct (decide (waiting_id s = Some id)) as [Hw|Hw].
  - rewrite !find_partner_Some by done.
    rewrite (find_partner_body_waiting id u s);
      [|rewrite leave_if_in_room_absent by done; intros o; rewrite Hw;
        intros [= <-]; by right].
    rewrite find_partner_body_waiting;
      [|rewrite leave_if_in_room_absent by done; by intros o].
    rewrite !leave_if_in_room_absent by done. done.
  - f_equal. by apply State_eq.
Qed.

Lemma next_partner_outside_room_witness :
  next_partner (Some "a") "r2"
    (run [POST_register "a"; POST_find (Some "a") "r1"] init)
  = find_partner (Some "a") "r2"
      (run [POST_register "a"; POST_find (Some "a") "r1"] init).
Proof.
  apply next_partner_outside_room; [discriminate|reflexivity].
Defined.

(** ** After [/leave] *)

(** A leave enqueues nothing to the leaver itself. *)
Lemma leave_own_queue cid n s :
  Inv s →
  message_queues (_leave_current_room cid n s) !! cid = message_queues s !! cid.
Proof.
  intros HI. destruct (room_of s !! cid) as [rid|] eqn:Hrid.
  - destruct (Inv_room_of _ HI _ _ Hrid) as (Hne & _).
    rewrite (leave_in_room _ _ _ rid) by done. simpl.
    unfold queues_after_leave.
    destruct (peer_of s !! cid) as [o|] eqn:Ho; [|done].
    destruct (Inv_peer _ HI _ _ Ho) as (_ & Hco & _).
    destruct (n && truthy o); [|done]. by apply _enqueue_lookup_ne.
  - rewrite leave_not_in_room by by left. simpl. by case_decide.
Qed.

(** X16.  [/leave] forgets the caller: in the state that follows a [/leave]
    made in a reachable state, the client is not in the waiting slot, is
    indexed to no room, has no peer, is the peer of nobody and is listed in
    no room.  Only its queue remains: what it held before the request, with
    one [status] event ("Left the chat.") appended. *)
Theorem leave_forgets_client (s : State) (id : string) :
  reachable s → id ≠ "" →
  let s' := (leave (Some id) s).1 in
  waiting_id s' ≠ Some id ∧
  room_of s' !! id = None ∧
  peer_of s' !! id = None ∧
  (∀ x, peer_of s' !! x ≠ Some id) ∧
  (∀ rid ms k, rooms s' !! rid = Some ms → ms !! k ≠ Some id) ∧
  message_queues s' !! id
  = (λ q, q ++ [mkEvent "status" (JObj [("msg", JStr "Left the chat.")])])
      <$> message_queues s !! id.
Proof.
  intros HI%reachable_Inv Hid. cbn zeta.
  rewrite leave_Some by done. cbn [fst].
  pose proof (leave_own_queue id true s HI) as Hown.
  set (L := _leave_current_room id true s) in *.
  assert (Inv (_enqueue id "status" left_the_chat L)) as HI'
    by (apply Inv_enqueue; subst L; by apply Inv_leave).
  assert (room_of (_enqueue id "status" left_the_chat L) !! id = None) as Hr.
  { rewrite (proj2 (proj2 (proj2 (_enqueue_fields _ _ _ _)))).
    subst L. rewrite leave_room_of. apply lookup_delete_eq. }
  split_and!; try done.
  - rewrite (proj1 (_enqueue_fields _ _ _ _)). subst L. by apply leave_waiting_ne.
  - by apply Inv_no_peer_without_room.
  - intros x. by apply Inv_not_peer_without_room.
  - intros rid ms k. by apply Inv_not_member_without_room.
  - rewrite <- Hown. unfold _enqueue.
    destruct (message_queues L !! id) as [q|] eqn:E; simpl.
    + by rewrite lookup_insert_eq.
    + by rewrite E.
Qed.

Lemma leave_forgets_client_witness :
  room_of (leave (Some "b") a_and_b_paired).1 !! "b" = None ∧
  message_queues (leave (Some "b") a_and_b_paired).1 !! "b"
  = (λ q, q ++ [mkEvent "status" (JObj [("msg", JStr "Left the chat.")])])
      <$> message_queues a_and_b_paired !! "b".
Proof.
  destruct (leave_forgets_client a_and_b_paired "b") as (_ & H1 & _ & _ & _ & H2).
  - unfold a_and_b_paired. reach.
  - discriminate.
  - split; [exact H1|exact H2].
Defined.

Lemma leave_route_fields cid s :
  cid ≠ "" →
  waiting_id (leave (Some cid) s).1 = waiting_id (_leave_current_room cid true s) ∧
  rooms (leave (Some cid) s).1 = rooms (_leave_current_room cid true s) ∧
  peer_of (leave (Some cid) s).1 = peer_of (_leave_current_room cid true s) ∧
  room_of (leave (Some cid) s).1 = room_of (_leave_current_room cid true s).
Proof. intros H. rewrite leave_Some by done. apply _enqueue_fields. Qed.

(** X17.  A room does not outlive its members: in a reachable state where
    [A] and [B] are peers in the room [rid], once both have called [/leave],
    in either order, the record of the room is gone, and neither client has
    a room index or a peer index entry. *)
Theorem room_deleted_when_both_left (s : State) (A B rid : string) :
  reachable s → peer_of s !! A = Some B → room_of s !! A = Some rid →
  let s2 := (leave (Some B) (leave (Some A) s).1).1 in
  let s2' := (leave (Some A) (leave (Some B) s).1).1 in
  (rooms s2 !! rid = None ∧ room_of s2 !! A = None ∧ room_of s2 !! B = None ∧
   peer_of s2 !! A = None ∧ peer_of s2 !! B = None) ∧
  (rooms s2' !! rid = None ∧ room_of s2' !! A = None ∧ room_of s2' !! B = None ∧
   peer_of s2' !! A = None ∧ peer_of s2' !! B = None).
Proof.
  assert (∀ s A B rid,
            Inv s → peer_of s !! A = Some B → room_of s !! A = Some rid →
            let s2 := (leave (Some B) (leave (Some A) s).1).1 in
            rooms s2 !! rid = None ∧ room_of s2 !! A = None ∧
            room_of s2 !! B = None ∧
            peer_of s2 !! A = None ∧ peer_of s2 !! B = None) as Hgen.
  { clear. intros s A B rid HI HAB HrA. cbn zeta.
    destruct (Inv_peers_room _ _ _ HI HAB)
      as (HA & HB & Hne & rid' & Hrid & HrA' & HrB & Hrooms).
    assert (rid' = rid) as -> by congruence.
    destruct (leave_route_fields A s HA) as (_ & Hro1 & Hp1 & Hr1).
    set (s1 := (leave (Some A) s).1) in *.
    assert (Inv s1) as HI1.
    { apply (Inv_handle (POST_leave (Some A)) s); done. }
    assert (room_of s1 !! B = Some rid) as HrB1.
    { rewrite Hr1, leave_room_of. by rewrite lookup_delete_ne. }
    assert (room_of s1 !! A = None) as HrA1.
    { rewrite Hr1, leave_room_of. apply lookup_delete_eq. }
    assert (∃ k, rooms s1 !! rid = Some {[k := B]}) as [k Hms1].
    { rewrite Hro1, (leave_in_room _ _ _ rid) by done. simpl.
      unfold rooms_after_leave. cbn zeta.
      destruct Hrooms as [-> | ->]; simpl.
      - rewrite remove_member_pair_l by done.
        rewrite decide_False
          by (intros He; apply (f_equal size) in He;
              by rewrite map_size_singleton in He).
        exists "b". apply lookup_insert_eq.
      - rewrite remove_member_pair_r by done.
        rewrite decide_False
          by (intros He; apply (f_equal size) in He;
              by rewrite map_size_singleton in He).
        exists "a". apply lookup_insert_eq. }
    destruct (leave_route_fields B s1 HB) as (_ & -> & -> & ->).
    rewrite (leave_in_room _ _ _ rid) by done. simpl.
    assert (peer_of s1 !! B = None) as HpB1.
    { rewrite Hp1, (leave_in_room _ _ _ rid) by done. simpl.
      unfold peer_after_leave. rewrite HAB, truthy_ne by done.
      apply lookup_delete_eq. }
    split_and!.
    - unfold rooms_after_leave. rewrite Hms1. cbn zeta. simpl.
      rewrite remove_member_singleton, decide_True by done.
      apply lookup_delete_eq.
    - rewrite lookup_delete_ne by done. done.
    - apply lookup_delete_eq.
    - unfold peer_after_leave. rewrite HpB1. rewrite lookup_delete_ne by done.
      by apply Inv_no_peer_without_room.
    - unfold peer_after_leave. rewrite HpB1. apply lookup_delete_eq. }
  intros HI%reachable_Inv HAB HrA. cbn zeta. split.
  - by apply Hgen.
  - destruct (Inv_peers_room _ _ _ HI HAB)
      as (_ & _ & _ & rid' & _ & HrA' & HrB & _).
    assert (rid' = rid) as -> by congruence.
    destruct (Inv_peer _ HI _ _ HAB) as (_ & _ & HBA & _).
    destruct (Hgen s B A rid HI HBA HrB) as (? & ? & ? & ? & ?).
    by split_and!.
Qed.

Lemma room_deleted_when_both_left_witness :
  rooms (leave (Some "b") (leave (Some "a") a_and_b_paired).1).1 !! "r2" = None.
Proof.
  destruct (room_deleted_when_both_left a_and_b_paired "a" "b" "r2")
    as [(H & _) _].
  - unfold a_and_b_paired. reach.
  - vm_compute. reflexivity.
  - vm_compute. reflexivity.
  - exact H.
Defined.

(** ** [/next] and [/find] from within a room *)

Lemma _enqueue_comm x y e d e' d' t :
  x ≠ y →
  _enqueue x e d (_enqueue y e' d' t) = _enqueue y e' d' (_enqueue x e d t).
Proof.
  intros Hne. unfold _enqueue.
  destruct (message_queues t !! x) as [qx|] eqn:Ex,
    (message_queues t !! y) as [qy|] eqn:Ey; simpl;
    rewrite ?Ex, ?Ey, ?lookup_insert_ne by done; rewrite ?Ex, ?Ey; try done.
  apply State_eq; simpl; try done. by apply insert_insert_ne.
Qed.

Lemma _enqueue_set_waiting_id x e d w t :
  _enqueue x e d (set_waiting_id w t) = set_waiting_id w (_enqueue x e d t).
Proof. unfold _enqueue. simpl. by destruct (message_queues t !! x). Qed.

Lemma _enqueue_queues_ext x e d a b :
  message_queues a = message_queues b →
  message_queues (_enqueue x e d a) = message_queues (_enqueue x e d b).
Proof.
  intros H. unfold _enqueue. rewrite H.
  destruct (message_queues b !! x); simpl; by rewrite ?H.
Qed.

Lemma pair_up_message_queues other cid rid t :
  message_queues (pair_up other cid rid t)
  = message_queues
      (_enqueue cid "matched" (matched_data rid "callee" other)
         (_enqueue other "matched" (matched_data rid "caller" cid) t)).
Proof.
  unfold pair_up. cbn zeta. apply _enqueue_queues_ext, _enqueue_queues_ext.
  done.
Qed.

Lemma pair_up_enqueue x e d other cid rid t :
  x ≠ other → x ≠ cid →
  pair_up other cid rid (_enqueue x e d t) = _enqueue x e d (pair_up other cid rid t).
Proof.
  intros H1 H2.
  destruct (pair_up_fields other cid rid (_enqueue x e d t)) as (Ew & Er & Ep & Eo).
  destruct (pair_up_fields other cid rid t) as (Ew' & Er' & Ep' & Eo').
  destruct (_enqueue_fields x e d t) as (Fw & Fr & Fp & Fo).
  destruct (_enqueue_fields x e d (pair_up other cid rid t)) as (Gw & Gr & Gp & Go).
  apply State_eq.
  - by rewrite Ew, Gw, Ew'.
  - by rewrite Er, Gr, Er', Fr.
  - by rewrite Ep, Gp, Ep', Fp.
  - by rewrite Eo, Go, Eo', Fo.
  - rewrite pair_up_message_queues.
    rewrite (_enqueue_comm other x) by done.
    rewrite (_enqueue_comm cid x) by done.
    apply _enqueue_queues_ext. by rewrite pair_up_message_queues.
Qed.

Lemma become_waiting_enqueue x e d cid t :
  x ≠ cid →
  become_waiting cid (_enqueue x e d t) = _enqueue x e d (become_waiting cid t).
Proof.
  intros H. unfold become_waiting. cbn zeta.
  rewrite <- (_enqueue_set_waiting_id x e d).
  by rewrite (_enqueue_comm cid x).
Qed.

(** X18.  From within a room, [/next] is [/find] plus the notification of
    the peer: in a reachable state where [B] is the peer of [A], [/next] by
    [A] gives the response of [/find] by [A], and its state is the state of
    [/find] with one [peer-left] event enqueued to [B]. *)
Theorem next_partner_is_find_plus_notification (s : State) (A B u : string) :
  reachable s → peer_of s !! A = Some B →
  next_partner (Some A) u s
  = (_enqueue B "peer-left" (JObj []) (find_partner (Some A) u s).1,
     (find_partner (Some A) u s).2).
Proof.
  intros HI%reachable_Inv HAB.
  destruct (Inv_peers_room _ _ _ HI HAB)
    as (HA & HB & Hne & rid & Hrid & HrA & HrB & _).
  unfold next_partner. rewrite truthy_ne by done.
  rewrite !find_partner_Some by done.
  remember (_leave_current_room A false s) as L eqn:HL.
  assert (leave_if_in_room A s = L) as El.
  { subst L. unfold leave_if_in_room. rewrite decide_True; [done|].
    by rewrite HrA. }
  assert (_leave_current_room A true s = _enqueue B "peer-left" (JObj []) L) as Et.
  { subst L. rewrite !(leave_in_room _ _ _ rid) by done.
    unfold queues_after_leave. rewrite HAB, truthy_ne by done. simpl.
    unfold _enqueue. simpl. by destruct (message_queues s !! B). }
  assert (Inv L) as HIL by (subst L; by apply Inv_leave).
  assert (room_of L !! A = None) as HrLA.
  { subst L. rewrite leave_room_of. apply lookup_delete_eq. }
  assert (room_of L !! B = Some rid) as HrLB.
  { subst L. rewrite leave_room_of. by rewrite lookup_delete_ne. }
  rewrite Et.
  set (L' := _enqueue B "peer-left" (JObj []) L).
  destruct (_enqueue_fields B "peer-left" (JObj []) L) as (Hw' & _ & _ & Hr').
  fold L' in Hw', Hr'.
  assert (leave_if_in_room A L' = L') as El'.
  { apply leave_if_in_room_absent. by rewrite Hr'. }
  destruct (find_partner_body_cases A u s)
    as [(W & Hw & HW1 & HW2 & ->) | [Hw ->]]; rewrite El in *; cbn [fst snd].
  - destruct (Inv_waiting _ HIL _ Hw) as [_ HrW].
    assert (B ≠ W) as HBW by (intros ->; congruence).
    rewrite (find_partner_body_matched A u L' W); rewrite ?El', ?Hw'; try done.
    subst L'. by rewrite pair_up_enqueue.
  - rewrite find_partner_body_waiting; rewrite ?El', ?Hw'; [|done].
    subst L'. by rewrite become_waiting_enqueue.
Qed.

Lemma next_partner_is_find_plus_notification_witness :
  next_partner (Some "a") "r3" a_and_b_paired
  = (_enqueue "b" "peer-left" (JObj [])
       (find_partner (Some "a") "r3" a_and_b_paired).1,
     (find_partner (Some "a") "r3" a_and_b_paired).2).
Proof.
  apply (next_partner_is_find_plus_notification a_and_b_paired "a" "b" "r3").
  - unfold a_and_b_paired. reach.
  - vm_compute. reflexivity.
Defined.

(** ** Requests that leave the matchmaking alone *)

(** X19.  Only [/find], [/next] and [/leave] touch the matchmaking: a
    registration, a relayed signal, a subscription, the consumption of a
    queue by the stream or by the test route, and the page leave the waiting
    slot, the rooms, the peer index and the room index exactly as they
    were. *)
Theorem matchmaking_untouched (req : Request) (s : State) :
  matchmaking_request req = false →
  waiting_id (handle req s).1 = waiting_id s ∧
  rooms (handle req s).1 = rooms s ∧
  peer_of (handle req s).1 = peer_of s ∧
  room_of (handle req s).1 = room_of s.
Proof.
  intros Hreq.
  destruct req as [u|id u|id to typ p|id u|id|id|cid|en id|]; try done; simpl.
  - unfold _ensure_queue. by destruct (message_queues s !! u).
  - unfold signal. destruct id as [cid|], to as [to|], typ as [typ|]; try done.
    destruct (truthy cid && truthy to && truthy typ); [|done].
    destruct (message_queues s !! to); [|done]. cbn [fst].
    apply _enqueue_fields.
  - unfold events. destruct id as [cid|]; [|done].
    destruct (truthy cid); [|done]. cbn [fst].
    unfold _ensure_queue. by destruct (message_queues s !! cid).
  - unfold gen_next. by destruct (message_queues s !! cid) as [[|e q]|].
  - unfold _test_pull. destruct en; [|done]. destruct id as [cid|]; [|done].
    destruct (truthy cid); [|done]. cbn [fst]. simpl.
    unfold _ensure_queue. by destruct (message_queues s !! cid).
Qed.

Lemma matchmaking_untouched_witness :
  peer_of (handle (POST_test_pull true (Some "a")) a_and_b_paired).1
  = peer_of a_and_b_paired.
Proof.
  apply (matchmaking_untouched (POST_test_pull true (Some "a")) a_and_b_paired).
  reflexivity.
Defined.

(** * The code against the specification's [nextPartner] *)

(** ** Queues and channels *)

Lemma same_events_lookup ch mq x :
  same_events ch mq →
  (λ l : list Spec.Event, Some <$> l) <$> (ch !! x)
  = (λ q : list Event, decode_event <$> q) <$> (mq !! x).
Proof.
  intros H. apply (f_equal (λ m, m !! x)) in H. by rewrite !lookup_fmap in H.
Qed.

Lemma same_events_is_Some ch mq x :
  same_events ch mq → is_Some (mq !! x) → is_Some (ch !! x).
Proof.
  intros H [q Hq]. pose proof (same_events_lookup ch mq x H) as E.
  rewrite Hq in E. destruct (ch !! x); [done|discriminate].
Qed.

(** An item enqueued to an existing queue is the emission of the event it
    stands for. *)
Lemma same_events_emit ch s p ev d e :
  same_events ch (message_queues s) → is_Some (message_queues s !! p) →
  decode_event (mkEvent ev d) = Some e →
  same_events (Spec.emit p e ch) (message_queues (_enqueue p ev d s)).
Proof.
  intros H [q Hq] He. pose proof (same_events_lookup _ _ p H) as E.
  rewrite Hq in E. destruct (ch !! p) as [l|] eqn:Hl; [|discriminate].
  simpl in E. injection E as E.
  unfold Spec.emit, same_events. rewrite Hl, (_enqueue_Some _ _ _ _ q) by done.
  simpl. rewrite !fmap_insert. rewrite H. f_equal.
  rewrite !fmap_app. simpl. by rewrite E, He.
Qed.

(** ** Rooms *)

Lemma abs_room_remove cid ms :
  abs_room (remove_member cid ms) = Spec.remove_from_room cid (abs_room ms).
Proof.
  assert (∀ k, remove_member cid ms !! k
               = if decide (ms !! k = Some cid) then None else ms !! k) as H.
  { intros k. apply option_eq. intros x. rewrite remove_member_lookup.
    case_decide as E; split.
    - intros [? ?]. congruence.
    - done.
    - by intros [? ?].
    - intros Hx. split; [done|]. intros ->. done. }
  unfold abs_room, Spec.remove_from_room. simpl. by rewrite !H.
Qed.

Lemma abs_room_empty ms :
  (∀ k, is_Some (ms !! k) → k = "a" ∨ k = "b") →
  Spec.room_is_empty (abs_room ms) ↔ ms = ∅.
Proof.
  intros Hk. unfold Spec.room_is_empty, abs_room. simpl. split.
  - intros [Ha Hb]. apply map_empty. intros k. apply eq_None_not_Some.
    intros Hs. destruct (Hk k Hs) as [-> | ->]; destruct Hs; congruence.
  - intros ->. by rewrite !lookup_empty.
Qed.

Lemma remove_member_keys cid ms :
  (∀ k, is_Some (ms !! k) → k = "a" ∨ k = "b") →
  ∀ k, is_Some (remove_member cid ms !! k) → k = "a" ∨ k = "b".
Proof.
  intros Hk k [x [Hx _]%remove_member_lookup]. apply Hk. by exists x.
Qed.

(** ** [_leave_current_room] does what [leaveRoom] says *)

Lemma leave_refines cid n s st :
  Inv s → refines s st →
  (n = true → ∀ p, peer_of s !! cid = Some p → is_Some (message_queues s !! p)) →
  refines (_leave_current_room cid n s) (Spec.leaveRoom cid n st).
Proof.
  intros HI [Rw Rr Rp Ro Rq] Hn. unfold Spec.leaveRoom. rewrite Ro.
  destruct (room_of s !! cid) as [rid|] eqn:Hrid.
  - destruct (Inv_room_of _ HI _ _ Hrid) as (Hne & ms & k & Hms & Hk).
    rewrite (leave_in_room _ _ _ rid) by done.
    cbn zeta. rewrite Rp, Rr, Rw, lookup_fmap, Hms.
    cbn [fmap option_fmap option_map].
    rewrite <- (abs_room_remove cid ms).
    pose proof (Inv_rooms _ HI _ _ Hms) as Hok.
    split; cbn [Spec.WaitingSlot Spec.RoomStore Spec.PeerIndex Spec.RoomIndex
                Spec.Channels waiting_id rooms peer_of room_of message_queues].
    + done.
    + unfold rooms_after_leave. rewrite Hms. cbn zeta. cbn [default from_option id].
      destruct (decide (remove_member cid ms = ∅)) as [He|He].
      * rewrite decide_True
          by (apply abs_room_empty; [apply remove_member_keys, Hok|done]).
        by rewrite fmap_delete.
      * rewrite decide_False.
        -- by rewrite fmap_insert.
        -- intros Hx. apply He. revert Hx. apply abs_room_empty.
           apply remove_member_keys, Hok.
    + unfold peer_after_leave. destruct (peer_of s !! cid) as [o|] eqn:Ho; [|done].
      destruct (Inv_peer _ HI _ _ Ho) as (Ho1 & _). by rewrite truthy_ne.
    + done.
    + unfold queues_after_leave. destruct (peer_of s !! cid) as [o|] eqn:Ho; [|done].
      destruct (Inv_peer _ HI _ _ Ho) as (Ho1 & _). rewrite truthy_ne by done.
      destruct n; [|done]. cbn [andb].
      apply same_events_emit; [done|by apply Hn|reflexivity].
  - rewrite leave_not_in_room by by left. rewrite delete_id by done.
    rewrite Rw. destruct (decide (waiting_id s = Some cid)) as [Hw|Hw].
    + by split.
    + split; simpl; done.
Qed.

(** ** [find_partner] does what [findPartner] says, for a registered id *)

Lemma abs_room_pair (x y : string) :
  abs_room {["a" := x; "b" := y]} = Spec.mkRoom (Some x) (Some y).
Proof. reflexivity. Qed.

Lemma find_partner_body_refines cid u s st :
  Inv s → refines s st → cid ≠ "" →
  is_Some (message_queues s !! cid) →
  (∀ w, waiting_id s = Some w → is_Some (message_queues s !! w)) →
  refines (find_partner_body cid u s).1 (Spec.findPartner cid u st).1 ∧
  decode_result (find_partner_body cid u s).2 = Some (Spec.findPartner cid u st).2.
Proof.
  intros HI HR Hc Hq Hwq. unfold Spec.findPartner.
  destruct (same_events_is_Some _ _ cid (refines_queues _ _ HR) Hq) as [l ->].
  cbn zeta.
  assert (refines (leave_if_in_room cid s)
            (if decide (is_Some (Spec.RoomIndex st !! cid))
             then Spec.leaveRoom cid false st else st)) as HRL.
  { rewrite (refines_room_of _ _ HR). unfold leave_if_in_room.
    case_decide; [|done]. by apply leave_refines. }
  set (stL := if decide (is_Some (Spec.RoomIndex st !! cid))
              then Spec.leaveRoom cid false st else st) in *.
  pose proof (Inv_leave_if_in_room cid s HI) as HIL.
  assert (is_Some (message_queues (leave_if_in_room cid s) !! cid)) as HqL
    by by rewrite leave_if_in_room_queues.
  destruct HRL as [Rw Rr Rp Ro Rq]. rewrite Rw.
  destruct (find_partner_body_cases cid u s)
    as [(W & Hw & HW1 & HW2 & ->) | [Hw ->]]; cbn [fst snd].
  - rewrite Hw. rewrite decide_True by done. cbn [fst snd]. split; [|done].
    destruct (pair_up_fields W cid u (leave_if_in_room cid s))
      as (Ew & Er & Ep & Eo).
    split; simpl; rewrite ?Ew, ?Er, ?Ep, ?Eo, ?Rr, ?Rp, ?Ro; try done.
    + by rewrite fmap_insert, abs_room_pair.
    + rewrite pair_up_message_queues.
      apply same_events_emit; [|by rewrite _enqueue_lookup_ne|reflexivity].
      apply same_events_emit; [done| |reflexivity].
      rewrite leave_if_in_room_queues. apply Hwq.
      by apply (leave_if_in_room_waiting_inv cid).
  - assert (refines (become_waiting cid (leave_if_in_room cid s))
              (Spec.mkState (Some cid) (Spec.RoomStore stL) (Spec.PeerIndex stL)
                 (Spec.RoomIndex stL) (Spec.emit cid Spec.Status (Spec.Channels stL))))
      as HRW.
    { destruct (become_waiting_fields cid (leave_if_in_room cid s))
        as (Ew & Er & Ep & Eo).
      split; simpl; rewrite ?Ew, ?Er, ?Ep, ?Eo, ?Rr, ?Rp, ?Ro; try done.
      unfold become_waiting. cbn zeta.
      apply (same_events_emit _ (set_waiting_id (Some cid) (leave_if_in_room cid s)));
        [done|done|reflexivity]. }
    destruct (waiting_id (leave_if_in_room cid s)) as [other|] eqn:Eo;
      [|by split].
    destruct (Hw other eq_refl) as [-> | ->].
    + by destruct (Inv_waiting _ HIL _ Eo).
    + rewrite decide_False by (by intros []). by split.
Qed.

(** In a reachable state the empty string keys no queue. *)
Lemma reachable_queue_keys s : reachable s → message_queues s !! "" = None.
Proof.
  induction 1 as [|s req _ IH Hu]; [done|].
  destruct req as [u|id u|id to typ p|id u|id|id|cid|en id|]; simpl.
  - unfold _ensure_queue. destruct (message_queues s !! u); [done|].
    simpl. by rewrite lookup_insert_ne.
  - unfold find_partner. destruct id as [cid|]; [|done].
    destruct (truthy cid); [|done].
    assert (message_queues (leave_if_in_room cid s) !! "" = None) as HL
      by by rewrite leave_if_in_room_queues.
    destruct (find_partner_body_cases cid u s)
      as [(W & _ & _ & _ & ->) | [_ ->]]; cbn [fst].
    + unfold pair_up. cbn zeta. repeat apply _enqueue_lookup_None. done.
    + unfold become_waiting. cbn zeta. repeat apply _enqueue_lookup_None. done.
  - unfold signal. destruct id as [cid|], to as [to|], typ as [typ|]; try done.
    destruct (truthy cid && truthy to && truthy typ); [|done].
    destruct (message_queues s !! to); [|done]. by apply _enqueue_lookup_None.
  - unfold next_partner. destruct id as [cid|]; [|done].
    destruct (truthy cid) eqn:Hc; [|done].
    rewrite find_partner_Some by by apply truthy_inv.
    set (L := _leave_current_room cid true s).
    assert (message_queues (leave_if_in_room cid L) !! "" = None) as HL.
    { rewrite leave_if_in_room_queues. subst L. by apply leave_queue_None. }
    destruct (find_partner_body_cases cid u L)
      as [(W & _ & _ & _ & ->) | [_ ->]]; cbn [fst].
    + unfold pair_up. cbn zeta. repeat apply _enqueue_lookup_None. done.
    + unfold become_waiting. cbn zeta. repeat apply _enqueue_lookup_None. done.
  - unfold leave. destruct id as [cid|]; [|done].
    destruct (truthy cid); [|done]. cbn [fst].
    by apply _enqueue_lookup_None, leave_queue_None.
  - unfold events. destruct id as [cid|]; [|done].
    destruct (truthy cid) eqn:Hc; [|done]. cbn [fst].
    apply truthy_inv in Hc. unfold _ensure_queue.
    destruct (message_queues s !! cid); [done|]. simpl.
    by rewrite lookup_insert_ne.
  - unfold gen_next. destruct (message_queues s !! cid) as [[|e q]|] eqn:E;
      try done. simpl. rewrite lookup_insert_ne; [done|]. intros ->. congruence.
  - unfold _test_pull. destruct en; [|done]. destruct id as [cid|]; [|done].
    destruct (truthy cid) eqn:Hc; [|done]. cbn [fst]. simpl.
    apply truthy_inv in Hc. rewrite lookup_insert_ne by done.
    unfold _ensure_queue. destruct (message_queues s !! cid); [done|]. simpl.
    by rewrite lookup_insert_ne.
  - done.
Qed.

(** ** Every reachable state stands for a state of the specification *)

Lemma decodable_refines s : decodable s → refines s (abs_state s).
Proof.
  intros Hd. split; try done. unfold same_events, abs_state. simpl.
  assert (∀ q : list Event,
            Forall (λ e, is_Some (decode_event e)) q →
            Some <$> omap decode_event q = decode_event <$> q) as Hl.
  { induction 1 as [|e q [v Hv] _ IH]; [done|].
    simpl. rewrite Hv. simpl. by f_equal. }
  rewrite <- map_fmap_compose. apply map_eq. intros x. rewrite !lookup_fmap.
  destruct (message_queues s !! x) as [q|] eqn:Hq; [|done]. simpl. f_equal.
  apply Hl. by apply (Hd x).
Qed.

Lemma decodable_same_queues s s' :
  message_queues s' = message_queues s → decodable s → decodable s'.
Proof. intros E H x q. rewrite E. apply H. Qed.

Lemma decodable_enqueue cid ev d s :
  is_Some (decode_event (mkEvent ev d)) → decodable s →
  decodable (_enqueue cid ev d s).
Proof.
  intros He H x q. unfold _enqueue.
  destruct (message_queues s !! cid) as [qc|] eqn:E; [|apply H]. simpl.
  rewrite lookup_insert_Some. intros [[<- <-] | [_ Hx]]; [|by apply (H x)].
  apply Forall_app. split; [by apply (H cid)|]. by constructor.
Qed.

Lemma decodable_ensure_queue cid s : decodable s → decodable (_ensure_queue cid s).
Proof.
  intros H x q. unfold _ensure_queue.
  destruct (message_queues s !! cid) eqn:E; [apply H|]. simpl.
  rewrite lookup_insert_Some.
  intros [[_ <-] | [_ Hx]]; [by constructor|by apply (H x)].
Qed.

Lemma leave_queues_cases cid n s :
  message_queues (_leave_current_room cid n s) = message_queues s
  ∨ ∃ o, message_queues (_leave_current_room cid n s)
         = message_queues (_enqueue o "peer-left" (JObj []) s).
Proof.
  unfold _leave_current_room.
  destruct (room_of s !! cid) as [rid|]; [destruct (truthy rid)|]; simpl;
    try (left; by case_decide).
  destruct (peer_of s !! cid) as [o|] eqn:Ho; simpl.
  - destruct (truthy o), n; simpl; case_decide; simpl;
      first [ by left
            | right; exists o; unfold _enqueue; simpl;
              by destruct (message_queues s !! o) ].
  - case_decide; by left.
Qed.

Lemma decodable_leave cid n s : decodable s → decodable (_leave_current_room cid n s).
Proof.
  intros H. destruct (leave_queues_cases cid n s) as [E | [o E]].
  - by apply (decodable_same_queues s).
  - apply (decodable_same_queues (_enqueue o "peer-left" (JObj []) s)); [done|].
    apply decodable_enqueue; [by eexists|done].
Qed.

Lemma decodable_find_partner_body cid u s :
  decodable s → decodable (find_partner_body cid u s).1.
Proof.
  intros H.
  assert (decodable (leave_if_in_room cid s)) as HL.
  { unfold leave_if_in_room. case_decide; [by apply decodable_leave|done]. }
  destruct (find_partner_body_cases cid u s)
    as [(W & _ & _ & _ & ->) | [_ ->]]; cbn [fst].
  - unfold pair_up. cbn zeta.
    apply decodable_enqueue; [by eexists|].
    apply decodable_enqueue; [by eexists|].
    by apply (decodable_same_queues (leave_if_in_room cid s)).
  - unfold become_waiting. cbn zeta.
    apply decodable_enqueue; [by eexists|].
    by apply (decodable_same_queues (leave_if_in_room cid s)).
Qed.

Lemma reachable_decodable s : reachable s → decodable s.
Proof.
  induction 1 as [|s req _ IH Hu].
  { intros x q. simpl. by rewrite lookup_empty. }
  destruct req as [u|id u|id to typ p|id u|id|id|cid|en id|]; simpl.
  - by apply decodable_ensure_queue.
  - unfold find_partner. destruct id as [cid|]; [|done].
    destruct (truthy cid); [|done]. by apply decodable_find_partner_body.
  - unfold signal. destruct id as [cid|], to as [to|], typ as [typ|]; try done.
    destruct (truthy cid && truthy to && truthy typ); [|done].
    destruct (message_queues s !! to); [|done]. cbn [fst].
    apply decodable_enqueue; [by eexists|done].
  - unfold next_partner, find_partner. destruct id as [cid|]; [|done].
    destruct (truthy cid); [|done].
    by apply decodable_find_partner_body, decodable_leave.
  - unfold leave. destruct id as [cid|]; [|done].
    destruct (truthy cid); [|done]. cbn [fst].
    apply decodable_enqueue; [by eexists|]. by apply decodable_leave.
  - unfold events. destruct id as [cid|]; [|done].
    destruct (truthy cid); [|done]. by apply decodable_ensure_queue.
  - unfold gen_next. destruct (message_queues s !! cid) as [[|e q]|] eqn:E;
      try done. intros x q'. simpl. rewrite lookup_insert_Some.
    intros [[_ <-] | [_ Hx]]; [|by apply (IH x)].
    by apply (Forall_inv_tail (IH cid _ E)).
  - unfold _test_pull. destruct en; [|done]. destruct id as [cid|]; [|done].
    destruct (truthy cid); [|done]. cbn [fst]. intros x q. simpl.
    rewrite lookup_insert_Some. intros [[_ <-] | [_ Hx]]; [by constructor|].
    by apply (decodable_ensure_queue cid s IH x).
  - done.
Qed.

Lemma reachable_refines s : reachable s → refines s (abs_state s).
Proof. intros H. by apply decodable_refines, reachable_decodable. Qed.

(** ** [next_partner] against [nextPartner] *)

(** The claim of C10 fails on the code.  [nextPartner] of the specification
    ends in [findPartner], which rejects an identity that is not in the
    registry, and its events create the channel of their recipient;
    [next_partner] does neither.  From the initial state, [/next] with the
    id "x", which has no channel, answers [waiting] and puts "x" in the
    waiting slot where [nextPartner] fails with [UnknownIdentity] and leaves
    the slot empty.  And in the reachable state
    [paired_with_unregistered], [/next] by "a" enqueues nothing for its peer
    "0", which has no queue, where [nextPartner] delivers [peer-left] to
    it. *)
Lemma next_partner_unregistered_counterexample :
  refines init spec_init ∧
  decode_result (next_partner (Some "x") "u" init).2 = Some Spec.Waiting ∧
  (Spec.nextPartner "x" "u" spec_init).2 = Spec.UnknownIdentity ∧
  waiting_id (next_partner (Some "x") "u" init).1 = Some "x" ∧
  Spec.WaitingSlot (Spec.nextPartner "x" "u" spec_init).1 = None ∧
  reachable paired_with_unregistered ∧
  refines paired_with_unregistered spec_paired_with_unregistered ∧
  message_queues (next_partner (Some "a") "r3" paired_with_unregistered).1 !! "0"
  = None ∧
  Spec.Channels (Spec.nextPartner "a" "r3" spec_paired_with_unregistered).1 !! "0"
  = Some [Spec.PeerLeft].
Proof.
  split_and!; try (vm_compute; reflexivity);
    try (split; vm_compute; reflexivity).
  unfold paired_with_unregistered. reach.
Qed.

(** C10, amended.  In every reachable state, for every identity that has a
    queue, and provided its peer and the waiting client, if any, have one
    too: [next_partner] does what the specification's
    [leaveRoom(id, notifyPeer=true)] immediately followed by [findPartner(id)]
    does.  If the state of the code stands for the state [st] of the
    specification before the call, the state after the call stands for the
    state after [nextPartner] (same waiting slot, rooms, indexes, and the
    same events in every queue, the [peer-left] of the former peer
    included), and the response is the result of [nextPartner]. *)
Theorem next_partner_refines_spec (s : State) (st : Spec.State) (id u : string) :
  reachable s → refines s st →
  is_Some (message_queues s !! id) →
  (∀ p, peer_of s !! id = Some p → is_Some (message_queues s !! p)) →
  (∀ w, waiting_id s = Some w → is_Some (message_queues s !! w)) →
  refines (next_partner (Some id) u s).1 (Spec.nextPartner id u st).1 ∧
  decode_result (next_partner (Some id) u s).2
  = Some (Spec.nextPartner id u st).2.
Proof.
  intros Hreach HR Hq Hp Hw.
  assert (id ≠ "") as Hid.
  { intros ->. rewrite (reachable_queue_keys s Hreach) in Hq. by destruct Hq. }
  apply reachable_Inv in Hreach as HI.
  unfold next_partner, Spec.nextPartner. rewrite truthy_ne by done.
  rewrite find_partner_Some by done.
  apply find_partner_body_refines; try done.
  - by apply Inv_leave.
  - apply leave_refines; [done|done|]. intros _. apply Hp.
  - destruct Hq as [q Hq].
    destruct (extends_leave id true s _ _ Hq) as [l ->]. done.
  - intros w Hw'%leave_waiting_inv. destruct (Hw w Hw') as [qw Hqw].
    destruct (extends_leave id true s _ _ Hqw) as [l ->]. done.
Qed.

Lemma next_partner_refines_spec_witness :
  refines (next_partner (Some "a") "r3" a_and_b_paired).1
    (Spec.nextPartner "a" "r3" spec_a_and_b_paired).1 ∧
  decode_result (next_partner (Some "a") "r3" a_and_b_paired).2
  = Some (Spec.nextPartner "a" "r3" spec_a_and_b_paired).2.
Proof.
  apply (next_partner_refines_spec a_and_b_paired spec_a_and_b_paired "a" "r3").
  - unfold a_and_b_paired. reach.
  - split; vm_compute; reflexivity.
  - eexists. vm_compute. reflexivity.
  - intros p H. vm_compute in H. injection H as <-.
    eexists. vm_compute. reflexivity.
  - intros w H. vm_compute in H. discriminate H.
Defined.
